(** * UltraSonicSonar: a shallow embedding of the HC-SR04 driver class

    The notebook [UltraSonicSonar.ipynb] defines one Python class,
    [UltraSonicSonar], with a constructor, a hardware set-up method, four
    read-only properties and the measurement routine [get_range].

    Python floats are IEEE 754 binary64 numbers; they are modelled by the
    Standard Library's [spec_float] at precision 53 and maximal exponent
    1024, whose operations round to nearest even as the hardware does.
    Calls into [RPi.GPIO] and [time] are modelled by a machine state that
    holds the responses the environment will give (clock samples and echo
    line readings) and a chronological log of every external call. *)

From Stdlib Require Import ZArith List Bool String Lia.
From Stdlib Require Import Floats.SpecFloat.
Import ListNotations.

Local Open Scope Z_scope.

(** ** Python floats *)

Module PyFloat.

Definition float : Type := spec_float.

Definition prec : Z := 53.
Definition emax : Z := 1024.

(** [float(n)] for a Python int [n], rounded to nearest even. *)
Definition of_int (n : Z) : float := binary_normalize prec emax n 0 false.

Definition fsub : float -> float -> float := SFsub prec emax.
Definition fmul : float -> float -> float := SFmul prec emax.
Definition fdiv : float -> float -> float := SFdiv prec emax.

(** Python's [a < b], [a > b], [a <= b]: false as soon as one side is NaN. *)
Definition flt (a b : float) : bool := SFltb a b.
Definition fgt (a b : float) : bool := SFltb b a.
Definition fle (a b : float) : bool := SFleb a b.

Definition is_nan (x : float) : bool :=
  match x with S754_nan => true | _ => false end.

Definition is_finite (x : float) : bool :=
  match x with S754_zero _ | S754_finite _ _ _ => true | _ => false end.

End PyFloat.
Import PyFloat.

(** ** The [math] module, as far as the class uses it *)

Inductive Exn : Type :=
| ValueError      (* math.ceil: cannot convert float NaN to integer *)
| OverflowError.  (* math.ceil: cannot convert float infinity to integer *)

Definition math_nan : float := S754_nan.

Definition math_isnan (x : float) : bool := is_nan x.

(** The double nearest to pi, [0x1.921fb54442d18p+1]. *)
Definition math_pi : float := S754_finite false 7074237752028440 (-51).

(** [math.radians(x)] multiplies by the constant [pi / 180.0]. *)
Definition degToRad : float := fdiv math_pi (of_int 180).
Definition math_radians (x : float) : float := fmul x degToRad.

(** The least integer not below [n * 2^e]. *)
Definition ceil_scaled (n e : Z) : Z :=
  match e with
  | Zneg p => - ((- n) / 2 ^ Zpos p)
  | _ => n * 2 ^ e
  end.

(** [math.ceil(x)] returns a Python int and raises on NaN and infinities. *)
Definition math_ceil (x : float) : Exn + Z :=
  match x with
  | S754_nan => inl ValueError
  | S754_infinity _ => inl OverflowError
  | S754_zero _ => inr 0
  | S754_finite s m e => inr (ceil_scaled (cond_Zopp s (Zpos m)) e)
  end.

(** ** Module constants

    A decimal literal such as [0.00001] denotes the double nearest to it,
    which is the correctly rounded quotient of two exactly represented
    integers, here [1 / 100000]. *)

Definition SONIC_SPEED : float := of_int 343.                    (* 343.0 *)
Definition HALF_SONIC_SPEED : float := fdiv SONIC_SPEED (of_int 2). (* SONIC_SPEED / 2.0 *)

(** ** The class *)

Record UltraSonicSonar : Type := mkSonar {
  __name : string;
  __gpio_trigger : Z;
  __gpio_echo : Z;
  __min_range : float;
  __max_range : float;
  __field_of_view : float;
  __max_wait_time : float
}.

(** [__init__]. The numeric arguments are taken as floats, an int argument
    being its exact float; [field_of_view] is [None] when the caller leaves
    it out, and then defaults to [math.nan]. The chained assignment to
    [__max_wait_time] evaluates its right-hand side once and stores that one
    value in the same attribute twice. *)
Definition __init__ (name : string) (gpio_trigger gpio_echo : Z)
    (min_range max_range : float) (field_of_view : option float)
  : Exn + UltraSonicSonar :=
  let field_of_view := match field_of_view with Some d => d | None => math_nan end in
  let fov :=
    if negb (math_isnan field_of_view) then math_radians field_of_view
    else math_nan in
  match math_ceil (fmul (fdiv max_range SONIC_SPEED) (of_int 1000)) with
  | inl e => inl e
  | inr n =>
      let max_wait_time := fdiv (of_int n) (of_int 1000) in
      inr {| __name := name;
             __gpio_trigger := gpio_trigger;
             __gpio_echo := gpio_echo;
             __min_range := min_range;
             __max_range := max_range;
             __field_of_view := fov;
             __max_wait_time := max_wait_time |}
  end.

(** The properties. *)
Definition name (self : UltraSonicSonar) : string := __name self.
Definition min_range (self : UltraSonicSonar) : float := __min_range self.
Definition max_range (self : UltraSonicSonar) : float := __max_range self.
Definition field_of_view (self : UltraSonicSonar) : float := __field_of_view self.

(** ** The environment: GPIO lines and the clock *)

Inductive Level : Type := LOW | HIGH.

(** [GPIO.LOW] is 0 and [GPIO.HIGH] is 1; [GPIO.input] returns one of them. *)
Definition level_int (l : Level) : Z :=
  match l with LOW => 0 | HIGH => 1 end.

Inductive Direction : Type := OUT | IN.

Inductive Event : Type :=
| EvSetmodeBCM
| EvSetup (pin : Z) (d : Direction)
| EvOutput (pin : Z) (l : Level)
| EvInput (pin : Z) (l : Level)
| EvSleep (d : float)
| EvTime (t : float).

(** The machine state: the instance the method runs on, the values the next
    calls of [time.time()] and [GPIO.input] will return, and the log of the
    external calls made so far, oldest first. Every external call answers:
    failures of the GPIO library itself are outside the model. *)
Record State : Type := mkState {
  this : UltraSonicSonar;
  clock : list float;
  echo : list Level;
  log : list Event
}.

Inductive Outcome (A : Type) : Type :=
| Returns (a : A) (s : State)
| Raises (e : Exn) (s : State)
| Blocked (s : State)   (* the next external call has no scripted response *)
| Diverges.             (* a loop used up its iteration budget *)

Arguments Returns {A} a s.
Arguments Raises {A} e s.
Arguments Blocked {A} s.
Arguments Diverges {A}.

Definition M (A : Type) : Type := State -> Outcome A.

Definition ret {A : Type} (a : A) : M A := fun s => Returns a s.

Definition bind {A B : Type} (m : M A) (k : A -> M B) : M B :=
  fun s =>
    match m s with
    | Returns a s' => k a s'
    | Raises e s' => Raises e s'
    | Blocked s' => Blocked s'
    | Diverges => Diverges
    end.

Declare Scope py_scope.
Delimit Scope py_scope with py.
Notation "x <- m ;; k" := (bind m (fun x => k))
  (at level 61, m at next level, right associativity) : py_scope.
Notation "m ;; k" := (bind m (fun _ => k))
  (at level 61, right associativity) : py_scope.
Local Open Scope py_scope.

Definition emit (e : Event) : M unit :=
  fun s => Returns tt (mkState (this s) (clock s) (echo s) (log s ++ [e])).

Definition get_self : M UltraSonicSonar := fun s => Returns (this s) s.

Definition GPIO_setmode_BCM : M unit := emit EvSetmodeBCM.
Definition GPIO_setup (pin : Z) (d : Direction) : M unit := emit (EvSetup pin d).
Definition GPIO_output (pin : Z) (l : Level) : M unit := emit (EvOutput pin l).

Definition GPIO_input (pin : Z) : M Z :=
  fun s =>
    match echo s with
    | [] => Blocked s
    | l :: rest =>
        Returns (level_int l)
                (mkState (this s) (clock s) rest (log s ++ [EvInput pin l]))
    end.

Definition time_sleep (d : float) : M unit := emit (EvSleep d).

Definition time_time : M float :=
  fun s =>
    match clock s with
    | [] => Blocked s
    | t :: rest =>
        Returns t (mkState (this s) rest (echo s) (log s ++ [EvTime t]))
    end.

(** One more than the number of scripted echo readings: every iteration of
    either polling loop consumes a reading, so no loop runs longer. *)
Definition poll_bound : M nat := fun s => Returns (S (List.length (echo s))) s.

(** ** The methods *)

Definition init_hw : M unit :=
  self <- get_self ;;
  GPIO_setmode_BCM ;;
  GPIO_setup (__gpio_trigger self) OUT ;;
  GPIO_output (__gpio_trigger self) LOW ;;
  GPIO_setup (__gpio_echo self) IN.

(** How a [while] loop with a [return] in its body ends. *)
Inductive Flow : Type :=
| EarlyReturn (v : float)   (* the body executed [return v] *)
| LoopDone (t : float).     (* the condition failed; [t] is the sampled time *)

(** [while GPIO.input(echo) == 0: start_time = time.time(); if ...: return nan] *)
Fixpoint wait_echo_start (fuel : nat) (self : UltraSonicSonar)
    (iteration_start_time start_time : float) : M Flow :=
  match fuel with
  | O => fun _ => Diverges
  | S fuel' =>
      v <- GPIO_input (__gpio_echo self) ;;
      if v =? 0 then
        start_time <- time_time ;;
        if fgt (fsub start_time iteration_start_time) (__max_wait_time self)
        then ret (EarlyReturn math_nan)
        else wait_echo_start fuel' self iteration_start_time start_time
      else ret (LoopDone start_time)
  end.

(** [while GPIO.input(echo) == 1: stop_time = time.time(); if ...: return max_range] *)
Fixpoint wait_echo_stop (fuel : nat) (self : UltraSonicSonar)
    (iteration_start_time stop_time : float) : M Flow :=
  match fuel with
  | O => fun _ => Diverges
  | S fuel' =>
      v <- GPIO_input (__gpio_echo self) ;;
      if v =? 1 then
        stop_time <- time_time ;;
        if fgt (fsub stop_time iteration_start_time) (__max_wait_time self)
        then ret (EarlyReturn (__max_range self))
        else wait_echo_stop fuel' self iteration_start_time stop_time
      else ret (LoopDone stop_time)
  end.

(** The two [if] statements that end [get_range], in their order. *)
Definition clamp_range (self : UltraSonicSonar) (range_m : float) : float :=
  let range_m := if fgt range_m (__max_range self) then __max_range self else range_m in
  let range_m := if flt range_m (__min_range self) then __min_range self else range_m in
  range_m.

Definition get_range : M float :=
  self <- get_self ;;
  (* generate 0.01 ms impulse *)
  GPIO_output (__gpio_trigger self) HIGH ;;
  time_sleep (fdiv (of_int 1) (of_int 100000)) ;;       (* 0.00001 *)
  GPIO_output (__gpio_trigger self) LOW ;;
  start_time <- time_time ;;
  stop_time <- time_time ;;
  iteration_start_time <- time_time ;;
  fuel <- poll_bound ;;
  (* save start time *)
  r1 <- wait_echo_start fuel self iteration_start_time start_time ;;
  match r1 with
  | EarlyReturn v => ret v
  | LoopDone start_time =>
      (* save time of arrival *)
      r2 <- wait_echo_stop fuel self iteration_start_time stop_time ;;
      match r2 with
      | EarlyReturn v => ret v
      | LoopDone stop_time =>
          (* time difference between start and stop time *)
          let time_elapsed := fsub stop_time start_time in
          (* multiply with the half sonic speed *)
          let range_m := fmul time_elapsed HALF_SONIC_SPEED in
          ret (clamp_range self range_m)
      end
  end.

(** ** Auxiliary definitions for the statements and proofs *)

(** The state an outcome ends in, when there is one. *)
Definition final_state {A : Type} (o : Outcome A) : option State :=
  match o with
  | Returns _ s | Raises _ s | Blocked s => Some s
  | Diverges => None
  end.

(** The test both loops make on a fresh sample [t]: is [t - t0] beyond the
    wait budget of [self]? *)
Definition timed_out (self : UltraSonicSonar) (t0 t : float) : bool :=
  fgt (fsub t t0) (__max_wait_time self).

Definition in_budget (self : UltraSonicSonar) (t0 : float) (samples : list float) : Prop :=
  Forall (fun t => timed_out self t0 t = false) samples.

(** The three external calls that open [get_range]. *)
Definition trigger_pulse (self : UltraSonicSonar) : list Event :=
  [EvOutput (__gpio_trigger self) HIGH;
   EvSleep (fdiv (of_int 1) (of_int 100000));
   EvOutput (__gpio_trigger self) LOW].

(** The state in which the first polling loop starts. *)
Definition after_trigger (self : UltraSonicSonar) (a b t0 : float)
    (clk : list float) (ins : list Level) (lg : list Event) : State :=
  mkState self clk ins (lg ++ trigger_pulse self ++ [EvTime a; EvTime b; EvTime t0]).

(** The log of loop iterations that read level [l] and then sampled the clock. *)
Definition polls (pin : Z) (l : Level) (samples : list float) : list Event :=
  flat_map (fun t => [EvInput pin l; EvTime t]) samples.

Definition is_read (e : Event) : bool :=
  match e with
  | EvInput _ _ | EvTime _ => true
  | _ => false
  end.

(** [s'] comes from [s] by reading inputs only: the instance is the same, no
    reading was put back, and the log grew by clock and echo reads. *)
Definition reads_only (s s' : State) : Prop :=
  this s' = this s /\
  (List.length (echo s') <= List.length (echo s))%nat /\
  exists d : list Event, log s' = log s ++ d /\ forallb is_read d = true.

(** Both polling loops are instances of one loop: read [pin]; while the
    reading is [want], sample the clock and return [tv] once the sample is
    more than [mwt] after [t0]. *)
Fixpoint poll_loop (fuel : nat) (pin want : Z) (mwt tv t0 t : float) : M Flow :=
  match fuel with
  | O => fun _ => Diverges
  | S fuel' =>
      v <- GPIO_input pin ;;
      if v =? want then
        t <- time_time ;;
        if fgt (fsub t t0) mwt then ret (EarlyReturn tv)
        else poll_loop fuel' pin want mwt tv t0 t
      else ret (LoopDone t)
  end.

(** [clamp(x, lo, hi)] as the specification words it: the lower bound is
    tested first. *)
Definition clamp (x lo hi : float) : float :=
  if flt x lo then lo else if fgt x hi then hi else x.

(** The first sensor of the notebook's usage cell,
    [UltraSonicSonar("right", 15, 14, 0.05, 4.0, 0)], and clock samples
    written in milliseconds for the example runs. *)
Definition sonar_right : UltraSonicSonar :=
  mkSonar "right" 15 14 (fdiv (of_int 5) (of_int 100)) (of_int 4)
          (math_radians (of_int 0)) (fdiv (of_int 12) (of_int 1000)).

Definition ms (n : Z) : float := fdiv (of_int n) (of_int 1000).
Definition us (n : Z) : float := fdiv (of_int n) (of_int 1000000).

(** An example run: the echo line is low for two polls, high for two, and
    the pulse is 3.33 ms wide. *)
Definition pulse_clock : list float := [ms 0; ms 0; ms 0; ms 1; ms 2; ms 3; us 5330].
Definition pulse_echo : list Level := [LOW; LOW; HIGH; HIGH; HIGH; LOW].
Definition pulse_range : float := fmul (fsub (us 5330) (ms 2)) HALF_SONIC_SPEED.
Definition pulse_final : State :=
  mkState sonar_right [] []
    (trigger_pulse sonar_right ++ [EvTime (ms 0); EvTime (ms 0); EvTime (ms 0)]
       ++ polls 14 LOW [ms 1; ms 2] ++ [EvInput 14 HIGH]
       ++ polls 14 HIGH [ms 3; us 5330] ++ [EvInput 14 LOW]).

(** Two readings of the specification that the code is compared with. *)

(** "Construction fails if the range bounds are inverted, non-finite, or
    negative." *)
Definition bounds_validated : Prop :=
  forall (nm : string) (trig ech : Z) (mn mx : float) (fov : option float),
    fle mx mn = true \/ is_finite mn = false \/ is_finite mx = false \/
    flt mn (of_int 0) = true \/ flt mx (of_int 0) = true ->
    exists e : Exn, __init__ nm trig ech mn mx fov = inl e.

(** "Each wait phase is allowed up to [max_wait_s] measured from its own
    start": the echo line was found high after the samples [lows], so the
    end-wait phase starts at the last of them; at the later sample [t] the
    line is still high and [t] is within the budget counted from that start;
    then the call goes on polling and reads a further clock sample before it
    returns. *)
Definition independent_phase_budgets : Prop :=
  forall (self : UltraSonicSonar) (a b t0 : float) (lows highs : list float)
         (t : float) clk ins lg (v : float) (s' : State),
    in_budget self t0 lows ->
    in_budget self t0 highs ->
    timed_out self (last lows t0) t = false ->
    get_range (mkState self (a :: b :: t0 :: lows ++ highs ++ t :: clk)
                       (repeat LOW (List.length lows) ++
                        HIGH :: repeat HIGH (S (List.length highs)) ++ HIGH :: ins) lg) =
    Returns v s' ->
    (List.length (clock s') < List.length clk)%nat.

(** The order of two positive finite floats: by exponent, then mantissa. *)
Definition lex_compare (e1 : Z) (m1 : positive) (e2 : Z) (m2 : positive) : comparison :=
  match e1 ?= e2 with
  | Lt => Lt
  | Gt => Gt
  | Eq => Pos.compare_cont Eq m1 m2
  end.

(** ** Further definitions: lines, pin set-up, signs *)

(** The level last written to [pin] in a log, if any. *)
Definition line_level (pin : Z) (lg : list Event) : option Level :=
  fold_left (fun acc e =>
               match e with
               | EvOutput p l => if p =? pin then Some l else acc
               | _ => acc
               end) lg None.

(** A clock read, or a read of [pin]. *)
Definition is_read_of (pin : Z) (e : Event) : bool :=
  match e with
  | EvInput p _ => p =? pin
  | EvTime _ => true
  | _ => false
  end.

(** The discipline [RPi.GPIO] enforces with RuntimeError: the numbering
    mode is set before any [setup]; a pin is written only while its latest
    [setup] made it an output; a pin is read only after some [setup] of it.
    [mode] tells whether [setmode] was called, [dir] the latest set-up of
    each pin. *)
Fixpoint gpio_ok (mode : bool) (dir : Z -> option Direction) (lg : list Event) : bool :=
  match lg with
  | [] => true
  | EvSetmodeBCM :: rest => gpio_ok true dir rest
  | EvSetup p d :: rest =>
      mode && gpio_ok mode (fun q => if q =? p then Some d else dir q) rest
  | EvOutput p _ :: rest =>
      match dir p with Some OUT => gpio_ok mode dir rest | _ => false end
  | EvInput p _ :: rest =>
      match dir p with Some _ => gpio_ok mode dir rest | None => false end
  | EvSleep _ :: rest | EvTime _ :: rest => gpio_ok mode dir rest
  end.

(** The sign bit of a float; NaN has none. *)
Definition sign_bit (x : float) : option bool :=
  match x with
  | S754_zero s | S754_infinity s | S754_finite s _ _ => Some s
  | S754_nan => None
  end.

(** A sensor with its bounds the wrong way round,
    [UltraSonicSonar("right", 15, 14, 4.0, 0.05)]; its budget is 1 ms. *)
Definition sonar_inverted : UltraSonicSonar :=
  mkSonar "right" 15 14 (of_int 4) (fdiv (of_int 5) (of_int 100)) math_nan
          (fdiv (of_int 1) (of_int 1000)).

(** * Properties *)

(** ** The order on floats *)

Lemma lex_compare_Lt e1 m1 e2 m2 :
  lex_compare e1 m1 e2 m2 = Lt <-> e1 < e2 \/ (e1 = e2 /\ (m1 < m2)%positive).
Proof.
  unfold lex_compare. change (Pos.compare_cont Eq m1 m2) with (m1 ?= m2)%positive.
  destruct (Z.compare_spec e1 e2) as [He|He|He].
  - rewrite Pos.compare_lt_iff. split; [right; auto | intros [H|[_ H]]; [lia | exact H]].
  - split; [left; exact He | reflexivity].
  - split; [discriminate | intros [H|[H _]]; lia].
Qed.

Lemma lex_compare_Gt e1 m1 e2 m2 :
  lex_compare e1 m1 e2 m2 = Gt <-> e2 < e1 \/ (e1 = e2 /\ (m2 < m1)%positive).
Proof.
  unfold lex_compare. change (Pos.compare_cont Eq m1 m2) with (m1 ?= m2)%positive.
  destruct (Z.compare_spec e1 e2) as [He|He|He].
  - rewrite Pos.compare_gt_iff. split; [right; auto | intros [H|[_ H]]; [lia | exact H]].
  - split; [discriminate | intros [H|[H _]]; lia].
  - split; [left; exact He | reflexivity].
Qed.

Lemma lex_compare_Eq e1 m1 e2 m2 :
  lex_compare e1 m1 e2 m2 = Eq <-> e1 = e2 /\ m1 = m2.
Proof.
  unfold lex_compare. change (Pos.compare_cont Eq m1 m2) with (m1 ?= m2)%positive.
  destruct (Z.compare_spec e1 e2) as [He|He|He].
  - rewrite Pos.compare_eq_iff. split; [auto | intros [_ H]; exact H].
  - split; [discriminate | intros [H _]; lia].
  - split; [discriminate | intros [H _]; lia].
Qed.

(** [SFcompare] on two finite numbers, through [lex_compare]. *)
Lemma SFcompare_finite s1 m1 e1 s2 m2 e2 :
  SFcompare (S754_finite s1 m1 e1) (S754_finite s2 m2 e2) =
  Some match s1, s2 with
       | true, false => Lt
       | false, true => Gt
       | false, false => lex_compare e1 m1 e2 m2
       | true, true => lex_compare e2 m2 e1 m1
       end.
Proof.
  destruct s1, s2; simpl; try reflexivity.
  unfold lex_compare. rewrite (Z.compare_antisym e1 e2).
  destruct (e1 ?= e2) eqn:He; simpl; try reflexivity.
  change (Pos.compare_cont Eq m1 m2) with (m1 ?= m2)%positive.
  change (Pos.compare_cont Eq m2 m1) with (m2 ?= m1)%positive.
  rewrite (Pos.compare_antisym m1 m2). reflexivity.
Qed.

Lemma lex_compare_antisym e1 m1 e2 m2 :
  lex_compare e2 m2 e1 m1 = CompOpp (lex_compare e1 m1 e2 m2).
Proof.
  unfold lex_compare. rewrite (Z.compare_antisym e1 e2).
  destruct (e1 ?= e2); simpl; try reflexivity.
  change (Pos.compare_cont Eq m1 m2) with (m1 ?= m2)%positive.
  change (Pos.compare_cont Eq m2 m1) with (m2 ?= m1)%positive.
  apply Pos.compare_antisym.
Qed.

Lemma SFcompare_antisym (x y : float) :
  SFcompare y x = option_map CompOpp (SFcompare x y).
Proof.
  destruct x as [sx|sx| |sx mx ex], y as [sy|sy| |sy my ey];
    try (rewrite !SFcompare_finite; destruct sx, sy; simpl;
         rewrite ?(lex_compare_antisym ex mx ey my), ?CompOpp_involutive;
         try reflexivity; rewrite (lex_compare_antisym ey my ex mx), CompOpp_involutive;
         reflexivity);
    try destruct sx; try destruct sy; reflexivity.
Qed.

Lemma SFcompare_total (x y : float) :
  is_nan x = false -> is_nan y = false -> exists c, SFcompare x y = Some c.
Proof.
  destruct x as [sx|sx| |sx mx ex], y as [sy|sy| |sy my ey]; simpl;
    intros Hx Hy; try discriminate; eexists; reflexivity.
Qed.

Lemma SFcompare_refl (x : float) : is_nan x = false -> SFcompare x x = Some Eq.
Proof.
  destruct x as [s|s| |s m e]; intros Hx; try discriminate;
    try (destruct s; reflexivity).
  rewrite SFcompare_finite.
  assert (H : lex_compare e m e m = Eq) by (apply lex_compare_Eq; auto).
  destruct s; rewrite H; reflexivity.
Qed.

Lemma flt_not_nan (a b : float) : flt a b = true -> is_nan a = false /\ is_nan b = false.
Proof.
  unfold flt, SFltb. destruct a, b; simpl; try discriminate; auto.
Qed.

Lemma fle_not_nan (a b : float) : fle a b = true -> is_nan a = false /\ is_nan b = false.
Proof.
  unfold fle, SFleb. destruct a, b; simpl; try discriminate; auto.
Qed.

Lemma fgt_flt (a b : float) : fgt a b = flt b a.
Proof. reflexivity. Qed.

Lemma fle_refl (a : float) : is_nan a = false -> fle a a = true.
Proof. intros H. unfold fle, SFleb. rewrite (SFcompare_refl a H). reflexivity. Qed.

Lemma flt_fle (a b : float) : flt a b = true -> fle a b = true.
Proof. unfold flt, fle, SFltb, SFleb. destruct (SFcompare a b) as [[]|]; auto. Qed.

(** For numbers, [not (a > b)] is [a <= b]. *)
Lemma not_fgt_fle (a b : float) :
  is_nan a = false -> is_nan b = false -> fgt a b = false -> fle a b = true.
Proof.
  intros Ha Hb. unfold fgt, fle, SFltb, SFleb.
  rewrite (SFcompare_antisym a b).
  destruct (SFcompare_total a b Ha Hb) as [c ->]. destruct c; simpl; auto.
Qed.

Lemma fle_not_fgt (a b : float) : fle a b = true -> fgt a b = false.
Proof.
  unfold fgt, fle, SFltb, SFleb. rewrite (SFcompare_antisym a b).
  destruct (SFcompare a b) as [[]|]; simpl; auto; discriminate.
Qed.

Lemma flt_trans (a b c : float) :
  flt a b = true -> flt b c = true -> flt a c = true.
Proof.
  unfold flt, SFltb.
  destruct a as [sa|sa| |sa ma ea], b as [sb|sb| |sb mb eb], c as [sc|sc| |sc mc ec];
    try (destruct sa); try (destruct sb); try (destruct sc);
    try (simpl; intros; solve [discriminate | reflexivity | assumption]).
  - rewrite !SFcompare_finite.
    destruct (lex_compare eb mb ea ma) eqn:H1; simpl; intros Hab; try discriminate.
    destruct (lex_compare ec mc eb mb) eqn:H2; simpl; intros Hbc; try discriminate.
    apply lex_compare_Lt in H1, H2.
    assert (H3 : lex_compare ec mc ea ma = Lt) by (apply lex_compare_Lt; lia).
    rewrite H3. reflexivity.
  - rewrite !SFcompare_finite.
    destruct (lex_compare ea ma eb mb) eqn:H1; simpl; intros Hab; try discriminate.
    destruct (lex_compare eb mb ec mc) eqn:H2; simpl; intros Hbc; try discriminate.
    apply lex_compare_Lt in H1, H2.
    assert (H3 : lex_compare ea ma ec mc = Lt) by (apply lex_compare_Lt; lia).
    rewrite H3. reflexivity.
Qed.

(** ** The polling loops *)

Lemma repeat_snoc_app {A : Type} (x : A) (n : nat) (l : list A) :
  repeat x (S n) ++ l = repeat x n ++ x :: l.
Proof.
  change (x :: l) with ([x] ++ l). rewrite app_assoc, <- repeat_cons. reflexivity.
Qed.

Lemma last_cons {A : Type} (l : list A) (x d : A) : last (x :: l) d = last l x.
Proof.
  revert x d. induction l as [|y l IH]; intros x d; [reflexivity|].
  change (last (x :: y :: l) d) with (last (y :: l) d).
  rewrite (IH y d), (IH y x). reflexivity.
Qed.

(** Each loop of [get_range] is [poll_loop] at its own level and return value. *)
Lemma wait_echo_start_poll_loop (fuel : nat) (self : UltraSonicSonar) (i t : float) (s : State) :
  wait_echo_start fuel self i t s =
  poll_loop fuel (__gpio_echo self) 0 (__max_wait_time self) math_nan i t s.
Proof.
  revert t s. induction fuel as [|fuel IH]; intros t s; [reflexivity|].
  simpl. unfold bind. destruct (GPIO_input (__gpio_echo self) s) as [v s1|e s1|s1|]; try reflexivity.
  destruct (v =? 0); [|reflexivity].
  destruct (time_time s1) as [t1 s2|e s2|s2|]; try reflexivity.
  destruct (fgt (fsub t1 i) (__max_wait_time self)); [reflexivity|apply IH].
Qed.

Lemma wait_echo_stop_poll_loop (fuel : nat) (self : UltraSonicSonar) (i t : float) (s : State) :
  wait_echo_stop fuel self i t s =
  poll_loop fuel (__gpio_echo self) 1 (__max_wait_time self) (__max_range self) i t s.
Proof.
  revert t s. induction fuel as [|fuel IH]; intros t s; [reflexivity|].
  simpl. unfold bind. destruct (GPIO_input (__gpio_echo self) s) as [v s1|e s1|s1|]; try reflexivity.
  destruct (v =? 1); [|reflexivity].
  destruct (time_time s1) as [t1 s2|e s2|s2|]; try reflexivity.
  destruct (fgt (fsub t1 i) (__max_wait_time self)); [reflexivity|apply IH].
Qed.

Section PollLoop.

Variables (pin want : Z) (mwt tv t0 : float).

(** One iteration on a reading that keeps the loop going and a sample in budget. *)
Lemma poll_loop_step (fuel : nat) (l : Level) (t t1 : float) obj clk ins lg :
  level_int l = want ->
  fgt (fsub t1 t0) mwt = false ->
  poll_loop (S fuel) pin want mwt tv t0 t (mkState obj (t1 :: clk) (l :: ins) lg) =
  poll_loop fuel pin want mwt tv t0 t1
            (mkState obj clk ins ((lg ++ [EvInput pin l]) ++ [EvTime t1])).
Proof.
  intros Hl Ht. simpl. unfold bind, GPIO_input. simpl.
  rewrite Hl, Z.eqb_refl. unfold time_time. simpl. rewrite Ht. reflexivity.
Qed.

(** The iteration whose sample exceeds the budget returns [tv]. *)
Lemma poll_loop_timeout (fuel : nat) (l : Level) (t t1 : float) obj clk ins lg :
  level_int l = want ->
  fgt (fsub t1 t0) mwt = true ->
  poll_loop (S fuel) pin want mwt tv t0 t (mkState obj (t1 :: clk) (l :: ins) lg) =
  Returns (EarlyReturn tv) (mkState obj clk ins (lg ++ [EvInput pin l; EvTime t1])).
Proof.
  intros Hl Ht. simpl. unfold bind, GPIO_input. simpl.
  rewrite Hl, Z.eqb_refl. unfold time_time. simpl. rewrite Ht. unfold ret.
  rewrite <- app_assoc. reflexivity.
Qed.

(** A reading other than [want] ends the loop without sampling the clock. *)
Lemma poll_loop_exit (fuel : nat) (l : Level) (t : float) obj clk ins lg :
  level_int l <> want ->
  poll_loop (S fuel) pin want mwt tv t0 t (mkState obj clk (l :: ins) lg) =
  Returns (LoopDone t) (mkState obj clk ins (lg ++ [EvInput pin l])).
Proof.
  intros Hl. simpl. unfold bind, GPIO_input. simpl.
  apply Z.eqb_neq in Hl. rewrite Hl. reflexivity.
Qed.

(** A run of readings [l] with samples in budget is consumed whole. *)
Lemma poll_loop_polls (l : Level) (samples : list float) :
  level_int l = want ->
  Forall (fun x => fgt (fsub x t0) mwt = false) samples ->
  forall (fuel : nat) (t : float) obj clk ins lg,
    poll_loop (List.length samples + fuel) pin want mwt tv t0 t
      (mkState obj (samples ++ clk) (repeat l (List.length samples) ++ ins) lg) =
    poll_loop fuel pin want mwt tv t0 (last samples t)
      (mkState obj clk ins (lg ++ polls pin l samples)).
Proof.
  intros Hl Hs. induction Hs as [|x samples Hx Hs IH]; intros fuel t obj clk ins lg.
  - simpl. rewrite app_nil_r. reflexivity.
  - cbn [List.length repeat app Nat.add]. rewrite poll_loop_step by assumption.
    rewrite IH, last_cons. f_equal.
    f_equal. cbn [polls flat_map app]. rewrite <- !app_assoc. reflexivity.
Qed.

(** A run of polls ended by a reading other than [want]. *)
Lemma poll_loop_until_exit (l l' : Level) (samples : list float) (fuel : nat)
    (t : float) obj clk ins lg :
  level_int l = want -> level_int l' <> want ->
  Forall (fun x => fgt (fsub x t0) mwt = false) samples ->
  (List.length samples < fuel)%nat ->
  poll_loop fuel pin want mwt tv t0 t
    (mkState obj (samples ++ clk) (repeat l (List.length samples) ++ l' :: ins) lg) =
  Returns (LoopDone (last samples t))
    (mkState obj clk ins (lg ++ polls pin l samples ++ [EvInput pin l'])).
Proof.
  intros Hl Hl' Hs Hf.
  replace fuel with (List.length samples + S (fuel - S (List.length samples)))%nat by lia.
  rewrite (poll_loop_polls l samples Hl Hs), poll_loop_exit by exact Hl'.
  rewrite <- app_assoc. reflexivity.
Qed.

(** A run of polls ended by a sample beyond the budget. *)
Lemma poll_loop_until_timeout (l : Level) (samples : list float) (x : float)
    (fuel : nat) (t : float) obj clk ins lg :
  level_int l = want ->
  Forall (fun x => fgt (fsub x t0) mwt = false) samples ->
  fgt (fsub x t0) mwt = true ->
  (List.length samples < fuel)%nat ->
  poll_loop fuel pin want mwt tv t0 t
    (mkState obj (samples ++ x :: clk) (repeat l (S (List.length samples)) ++ ins) lg) =
  Returns (EarlyReturn tv)
    (mkState obj clk ins (lg ++ polls pin l samples ++ [EvInput pin l; EvTime x])).
Proof.
  intros Hl Hs Hx Hf.
  replace fuel with (List.length samples + S (fuel - S (List.length samples)))%nat by lia.
  rewrite repeat_snoc_app.
  rewrite (poll_loop_polls l samples Hl Hs), poll_loop_timeout by assumption.
  rewrite <- app_assoc. reflexivity.
Qed.

End PollLoop.

(** ** [get_range] on a state whose clock holds the three opening samples *)

Lemma get_range_unfold (self : UltraSonicSonar) (a b t0 : float) clk ins lg :
  get_range (mkState self (a :: b :: t0 :: clk) ins lg) =
  match poll_loop (S (List.length ins)) (__gpio_echo self) 0 (__max_wait_time self)
                  math_nan t0 a (after_trigger self a b t0 clk ins lg) with
  | Returns (EarlyReturn v) s1 => Returns v s1
  | Returns (LoopDone start_time) s1 =>
      match poll_loop (S (List.length ins)) (__gpio_echo self) 1 (__max_wait_time self)
                      (__max_range self) t0 b s1 with
      | Returns (EarlyReturn v) s2 => Returns v s2
      | Returns (LoopDone stop_time) s2 =>
          Returns (clamp_range self (fmul (fsub stop_time start_time) HALF_SONIC_SPEED)) s2
      | Raises e s2 => Raises e s2
      | Blocked s2 => Blocked s2
      | Diverges => Diverges
      end
  | Raises e s1 => Raises e s1
  | Blocked s1 => Blocked s1
  | Diverges => Diverges
  end.
Proof.
  unfold get_range, bind, get_self, GPIO_output, time_sleep, emit, time_time, poll_bound.
  cbn [this clock echo log].
  rewrite wait_echo_start_poll_loop.
  unfold after_trigger, trigger_pulse. rewrite <- !app_assoc. cbn [app].
  destruct (poll_loop _ _ 0 _ _ _ _ _) as [[v|start_time] s1|e s1|s1|]; try reflexivity.
  rewrite wait_echo_stop_poll_loop.
  destruct (poll_loop _ _ 1 _ _ _ _ _) as [[v|stop_time] s2|e s2|s2|]; reflexivity.
Qed.

(** ** The clamp *)

Lemma clamp_range_below (self : UltraSonicSonar) (d : float) :
  flt d (__min_range self) = true -> clamp_range self d = __min_range self.
Proof.
  intros Hd. unfold clamp_range.
  destruct (fgt d (__max_range self)) eqn:Hgt.
  - rewrite fgt_flt in Hgt. rewrite (flt_trans _ _ _ Hgt Hd). reflexivity.
  - rewrite Hd. reflexivity.
Qed.

Lemma clamp_range_inside (self : UltraSonicSonar) (d : float) :
  fle (__min_range self) d = true -> fle d (__max_range self) = true ->
  clamp_range self d = d.
Proof.
  intros Hlo Hhi. unfold clamp_range.
  rewrite (fle_not_fgt _ _ Hhi).
  apply fle_not_fgt in Hlo. rewrite fgt_flt in Hlo. rewrite Hlo. reflexivity.
Qed.

Lemma clamp_range_clamp (self : UltraSonicSonar) (d : float) :
  fle (__min_range self) (__max_range self) = true ->
  clamp_range self d = clamp d (__min_range self) (__max_range self).
Proof.
  intros Hb. unfold clamp. destruct (flt d (__min_range self)) eqn:Hd.
  - apply clamp_range_below, Hd.
  - unfold clamp_range. destruct (fgt d (__max_range self)).
    + apply fle_not_fgt in Hb. rewrite fgt_flt in Hb. rewrite Hb. reflexivity.
    + rewrite Hd. reflexivity.
Qed.

(** ** The three ways a measurement ends *)

(** C3. When every reading of the echo line is low until a clock sample is
    more than the wait budget after the sample taken at trigger end,
    [get_range] returns [math.nan]; it raises nothing. *)
Theorem get_range_no_echo (self : UltraSonicSonar) (a b t0 : float)
    (lows : list float) (t : float) clk ins lg :
  in_budget self t0 lows ->
  timed_out self t0 t = true ->
  get_range (mkState self (a :: b :: t0 :: lows ++ t :: clk)
                     (repeat LOW (S (List.length lows)) ++ ins) lg) =
  Returns math_nan
    (mkState self clk ins
       (lg ++ trigger_pulse self ++ [EvTime a; EvTime b; EvTime t0]
           ++ polls (__gpio_echo self) LOW lows
           ++ [EvInput (__gpio_echo self) LOW; EvTime t])).
Proof.
  intros Hlows Ht. rewrite get_range_unfold. unfold after_trigger.
  rewrite (poll_loop_until_timeout _ 0 _ _ _ LOW lows t) by
    (reflexivity || assumption || (rewrite length_app, repeat_length; lia)).
  rewrite <- !app_assoc. reflexivity.
Qed.

Lemma get_range_no_echo_witness :
  in_budget sonar_right (ms 0) [ms 1; ms 5] /\
  timed_out sonar_right (ms 0) (ms 13) = true /\
  get_range (mkState sonar_right (ms 0 :: ms 0 :: ms 0 :: [ms 1; ms 5] ++ ms 13 :: [ms 14])
                     (repeat LOW 3 ++ [HIGH]) []) =
  Returns math_nan
    (mkState sonar_right [ms 14] [HIGH]
       ([] ++ trigger_pulse sonar_right ++ [EvTime (ms 0); EvTime (ms 0); EvTime (ms 0)]
           ++ polls 14 LOW [ms 1; ms 5] ++ [EvInput 14 LOW; EvTime (ms 13)])).
Proof.
  assert (H1 : in_budget sonar_right (ms 0) [ms 1; ms 5])
    by (repeat constructor; vm_compute; reflexivity).
  assert (H2 : timed_out sonar_right (ms 0) (ms 13) = true)
    by (vm_compute; reflexivity).
  split; [exact H1|]. split; [exact H2|].
  exact (get_range_no_echo sonar_right (ms 0) (ms 0) (ms 0) [ms 1; ms 5] (ms 13)
                           [ms 14] [HIGH] [] H1 H2).
Defined.

(** ** Construction *)

Lemma init_inr (nm : string) (trig ech : Z) (mn mx : float) (fov : option float)
    (self : UltraSonicSonar) :
  __init__ nm trig ech mn mx fov = inr self ->
  __name self = nm /\ __gpio_trigger self = trig /\ __gpio_echo self = ech /\
  __min_range self = mn /\ __max_range self = mx /\ is_finite mx = true.
Proof.
  unfold __init__.
  destruct (math_ceil (fmul (fdiv mx SONIC_SPEED) (of_int 1000))) as [e|n] eqn:Hc;
    [discriminate|].
  intros H. injection H as <-. cbn.
  repeat (split; [reflexivity|]).
  destruct mx as [sx|sx| |sx m e]; try reflexivity; vm_compute in Hc; discriminate.
Qed.

Lemma sonar_right_init :
  __init__ "right" 15 14 (fdiv (of_int 5) (of_int 100)) (of_int 4) (Some (of_int 0)) =
  inr sonar_right.
Proof. vm_compute. reflexivity. Qed.

(** C4. On a constructed sensor, when the echo line is read high and keeps
    reading high until a clock sample exceeds the wait budget, [get_range]
    returns [max_range] itself, which is a number and so differs from the
    NaN that the start-wait timeout returns. *)
Theorem get_range_max_range (nm : string) (trig ech : Z) (mn mx : float)
    (fov : option float) (self : UltraSonicSonar) (a b t0 : float)
    (lows highs : list float) (t : float) clk ins lg :
  __init__ nm trig ech mn mx fov = inr self ->
  in_budget self t0 lows ->
  in_budget self t0 highs ->
  timed_out self t0 t = true ->
  get_range (mkState self (a :: b :: t0 :: lows ++ highs ++ t :: clk)
                     (repeat LOW (List.length lows) ++
                      HIGH :: repeat HIGH (S (List.length highs)) ++ ins) lg) =
  Returns (max_range self)
    (mkState self clk ins
       (lg ++ trigger_pulse self ++ [EvTime a; EvTime b; EvTime t0]
           ++ polls (__gpio_echo self) LOW lows
           ++ [EvInput (__gpio_echo self) HIGH]
           ++ polls (__gpio_echo self) HIGH highs
           ++ [EvInput (__gpio_echo self) HIGH; EvTime t]))
  /\ max_range self = mx
  /\ is_nan (max_range self) = false
  /\ max_range self <> math_nan.
Proof.
  intros Hinit Hlows Hhighs Ht.
  destruct (init_inr _ _ _ _ _ _ _ Hinit) as (_ & _ & _ & _ & Hmx & Hfin).
  assert (Hnan : is_nan (max_range self) = false).
  { unfold max_range. rewrite Hmx. destruct mx; try reflexivity; discriminate. }
  split; [|split; [exact Hmx|split; [exact Hnan|]]].
  - rewrite get_range_unfold. unfold after_trigger.
    rewrite (poll_loop_until_exit _ 0 _ _ _ LOW HIGH lows) by
      (reflexivity || discriminate || assumption ||
       (rewrite length_app, repeat_length; lia)).
    rewrite (poll_loop_until_timeout _ 1 _ _ _ HIGH highs t) by
      (reflexivity || assumption ||
       (rewrite length_app, repeat_length; cbn [List.length];
        rewrite length_app, repeat_length; lia)).
    rewrite <- !app_assoc. reflexivity.
  - intros E. rewrite E in Hnan. discriminate.
Qed.

Lemma get_range_max_range_witness :
  __init__ "right" 15 14 (fdiv (of_int 5) (of_int 100)) (of_int 4) (Some (of_int 0)) =
    inr sonar_right /\
  in_budget sonar_right (ms 0) [] /\
  in_budget sonar_right (ms 0) [ms 1; ms 12] /\
  timed_out sonar_right (ms 0) (ms 13) = true /\
  get_range (mkState sonar_right (ms 0 :: ms 0 :: ms 0 :: [] ++ [ms 1; ms 12] ++ ms 13 :: [])
                     (repeat LOW 0 ++ HIGH :: repeat HIGH 3 ++ [HIGH]) []) =
  Returns (of_int 4)
    (mkState sonar_right [] [HIGH]
       ([] ++ trigger_pulse sonar_right ++ [EvTime (ms 0); EvTime (ms 0); EvTime (ms 0)]
           ++ polls 14 LOW [] ++ [EvInput 14 HIGH]
           ++ polls 14 HIGH [ms 1; ms 12] ++ [EvInput 14 HIGH; EvTime (ms 13)])).
Proof.
  assert (H1 : in_budget sonar_right (ms 0) []) by constructor.
  assert (H2 : in_budget sonar_right (ms 0) [ms 1; ms 12])
    by (repeat constructor; vm_compute; reflexivity).
  assert (H3 : timed_out sonar_right (ms 0) (ms 13) = true)
    by (vm_compute; reflexivity).
  repeat (split; [first [exact sonar_right_init | assumption]|]).
  exact (proj1 (get_range_max_range "right" 15 14 _ _ _ sonar_right (ms 0) (ms 0) (ms 0)
                  [] [ms 1; ms 12] (ms 13) [] [HIGH] [] sonar_right_init H1 H2 H3)).
Defined.

(** C1. When the echo line is read low, then high, then low again, every
    clock sample staying in budget, the pulse width [w] is the last sample
    taken while high minus the last sample taken while low, and [get_range]
    returns [w * 171.5] clamped: equal to [clamp] of it for bounds in order,
    the number itself when it lies between the bounds, and exactly
    [min_range] when it is below [min_range]. *)
Theorem get_range_pulse_width (self : UltraSonicSonar) (a b t0 : float)
    (lows highs : list float) clk ins lg :
  in_budget self t0 lows ->
  in_budget self t0 highs ->
  let w := fsub (last highs b) (last lows a) in
  let d := fmul w (fdiv (of_int 343) (of_int 2)) in
  exists r : float,
    get_range (mkState self (a :: b :: t0 :: lows ++ highs ++ clk)
                       (repeat LOW (List.length lows) ++
                        HIGH :: repeat HIGH (List.length highs) ++ LOW :: ins) lg) =
    Returns r
      (mkState self clk ins
         (lg ++ trigger_pulse self ++ [EvTime a; EvTime b; EvTime t0]
             ++ polls (__gpio_echo self) LOW lows
             ++ [EvInput (__gpio_echo self) HIGH]
             ++ polls (__gpio_echo self) HIGH highs
             ++ [EvInput (__gpio_echo self) LOW]))
    /\ (fle (min_range self) (max_range self) = true ->
        r = clamp d (min_range self) (max_range self))
    /\ (fle (min_range self) d = true -> fle d (max_range self) = true -> r = d)
    /\ (flt d (min_range self) = true -> r = min_range self)
    /\ fdiv (of_int 343) (of_int 2) = fdiv (of_int 1715) (of_int 10).
Proof.
  intros Hlows Hhighs w d.
  exists (clamp_range self d). split; [|split; [|split; [|split]]].
  - rewrite get_range_unfold. unfold after_trigger.
    rewrite (poll_loop_until_exit _ 0 _ _ _ LOW HIGH lows) by
      (reflexivity || discriminate || assumption ||
       (rewrite length_app, repeat_length; lia)).
    rewrite (poll_loop_until_exit _ 1 _ _ _ HIGH LOW highs) by
      (reflexivity || discriminate || assumption ||
       (rewrite length_app, repeat_length; cbn [List.length];
        rewrite length_app, repeat_length; lia)).
    rewrite <- !app_assoc. reflexivity.
  - apply clamp_range_clamp.
  - apply clamp_range_inside.
  - apply clamp_range_below.
  - vm_compute. reflexivity.
Qed.

Lemma get_range_pulse_width_witness :
  in_budget sonar_right (ms 0) [ms 1; ms 2] /\
  in_budget sonar_right (ms 0) [ms 3; us 5330] /\
  exists r : float,
    get_range (mkState sonar_right
                       (ms 0 :: ms 0 :: ms 0 :: [ms 1; ms 2] ++ [ms 3; us 5330] ++ [])
                       (repeat LOW 2 ++ HIGH :: repeat HIGH 2 ++ LOW :: []) []) =
    Returns r
      (mkState sonar_right [] []
         ([] ++ trigger_pulse sonar_right ++ [EvTime (ms 0); EvTime (ms 0); EvTime (ms 0)]
             ++ polls 14 LOW [ms 1; ms 2] ++ [EvInput 14 HIGH]
             ++ polls 14 HIGH [ms 3; us 5330] ++ [EvInput 14 LOW]))
    /\ r = clamp (fmul (fsub (us 5330) (ms 2)) (fdiv (of_int 343) (of_int 2)))
                 (min_range sonar_right) (max_range sonar_right).
Proof.
  assert (H1 : in_budget sonar_right (ms 0) [ms 1; ms 2])
    by (repeat constructor; vm_compute; reflexivity).
  assert (H2 : in_budget sonar_right (ms 0) [ms 3; us 5330])
    by (repeat constructor; vm_compute; reflexivity).
  split; [exact H1|]. split; [exact H2|].
  destruct (get_range_pulse_width sonar_right (ms 0) (ms 0) (ms 0)
              [ms 1; ms 2] [ms 3; us 5330] [] [] [] H1 H2) as (r & Hrun & Hclamp & _).
  exists r. split; [exact Hrun|]. apply Hclamp. vm_compute. reflexivity.
Defined.

(** The scenario of the notebook's output: bounds 0.05 and 4.0 and a pulse
    of 3.33 ms give a distance between 0.571 and 0.572, printed as 0.57. *)
Example pulse_3330us :
  match get_range (mkState sonar_right [ms 0; ms 0; ms 0; ms 1; ms 2; ms 3; us 5330]
                           [LOW; LOW; HIGH; HIGH; HIGH; LOW] []) with
  | Returns r _ => fle (ms 571) r && fle r (ms 572)
  | _ => false
  end = true.
Proof. vm_compute. reflexivity. Qed.

(** ** What every run of the loops and of [get_range] satisfies *)

Lemma reads_only_refl (s : State) : reads_only s s.
Proof.
  split; [reflexivity|]. split; [lia|]. exists []. rewrite app_nil_r. auto.
Qed.

Lemma reads_only_trans (s1 s2 s3 : State) :
  reads_only s1 s2 -> reads_only s2 s3 -> reads_only s1 s3.
Proof.
  intros (Ht1 & Hl1 & d1 & Hd1 & Hr1) (Ht2 & Hl2 & d2 & Hd2 & Hr2).
  split; [congruence|]. split; [lia|].
  exists (d1 ++ d2). rewrite Hd2, Hd1, <- app_assoc, forallb_app, Hr1, Hr2. auto.
Qed.

Lemma poll_loop_reads (pin want : Z) (mwt tv t0 : float) (fuel : nat) :
  forall (t : float) (s : State),
    (List.length (echo s) < fuel)%nat ->
    match poll_loop fuel pin want mwt tv t0 t s with
    | Returns r s' => reads_only s s' /\ (forall v, r = EarlyReturn v -> v = tv)
    | Blocked s' => reads_only s s'
    | Raises _ _ => False
    | Diverges => False
    end.
Proof.
  induction fuel as [|fuel IH]; intros t [obj clk ins lg] Hf; [cbn in Hf; lia|].
  cbn [poll_loop]. unfold bind, GPIO_input. cbn [echo this clock log].
  destruct ins as [|l ins]; [apply reads_only_refl|].
  assert (H1 : reads_only (mkState obj clk (l :: ins) lg)
                          (mkState obj clk ins (lg ++ [EvInput pin l]))).
  { split; [reflexivity|]. split; [cbn; lia|]. exists [EvInput pin l]. auto. }
  destruct (level_int l =? want).
  - unfold time_time. cbn [echo this clock log].
    destruct clk as [|t1 clk]; [exact H1|].
    assert (H2 : reads_only (mkState obj (t1 :: clk) (l :: ins) lg)
                   (mkState obj clk ins ((lg ++ [EvInput pin l]) ++ [EvTime t1]))).
    { apply (reads_only_trans _ _ _ H1).
      split; [reflexivity|]. split; [cbn; lia|]. exists [EvTime t1]. auto. }
    destruct (fgt (fsub t1 t0) mwt).
    + split; [exact H2|]. intros v Hv. injection Hv as <-. reflexivity.
    + specialize (IH t1 (mkState obj clk ins ((lg ++ [EvInput pin l]) ++ [EvTime t1]))).
      cbn [echo] in IH. cbn [echo List.length] in Hf.
      assert (Hf' : (List.length ins < fuel)%nat) by lia. specialize (IH Hf').
      destruct (poll_loop fuel pin want mwt tv t0 t1 _) as [r s'|e s'|s'|];
        try exact IH.
      * destruct IH as [Hr Hv]. split; [exact (reads_only_trans _ _ _ H2 Hr)|exact Hv].
      * exact (reads_only_trans _ _ _ H2 IH).
  - split; [exact H1|]. intros v Hv. discriminate.
Qed.

(** Every run of [get_range] ends in a state (it returns or waits for an
    input, never raises, never exhausts its loop budget), leaves the
    instance alone, logs the trigger pulse first and reads after it, and
    returns NaN, [max_range], or a clamped value. *)
Lemma get_range_outcome (s : State) :
  match get_range s with
  | Returns v s' =>
      (this s' = this s /\
       exists d, log s' = log s ++ trigger_pulse (this s) ++ d /\ forallb is_read d = true)
      /\ (v = math_nan \/ v = __max_range (this s) \/
          exists x, v = clamp_range (this s) x)
  | Blocked s' =>
      this s' = this s /\
      exists d, log s' = log s ++ trigger_pulse (this s) ++ d /\ forallb is_read d = true
  | Raises _ _ => False
  | Diverges => False
  end.
Proof.
  destruct s as [self clk ins lg].
  destruct clk as [|a [|b [|t0 clk]]].
  - cbv [get_range bind get_self GPIO_output time_sleep emit time_time this clock echo log].
    split; [reflexivity|]. exists []. rewrite <- !app_assoc. split; reflexivity.
  - cbv [get_range bind get_self GPIO_output time_sleep emit time_time this clock echo log].
    split; [reflexivity|]. exists [EvTime a]. rewrite <- !app_assoc. split; reflexivity.
  - cbv [get_range bind get_self GPIO_output time_sleep emit time_time this clock echo log].
    split; [reflexivity|]. exists [EvTime a; EvTime b]. rewrite <- !app_assoc.
    split; reflexivity.
  - rewrite get_range_unfold. cbn [this log].
    assert (Hlog : forall s1, reads_only (after_trigger self a b t0 clk ins lg) s1 ->
              this s1 = self /\
              exists d, log s1 = lg ++ trigger_pulse self ++ d /\ forallb is_read d = true).
    { intros s1 (Ht & _ & d & Hd & Hr). split; [exact Ht|].
      exists ([EvTime a; EvTime b; EvTime t0] ++ d).
      rewrite Hd. unfold after_trigger. cbn [log]. rewrite <- !app_assoc.
      split; [reflexivity|]. rewrite forallb_app, Hr. reflexivity. }
    pose proof (poll_loop_reads (__gpio_echo self) 0 (__max_wait_time self) math_nan t0
                  (S (List.length ins)) a (after_trigger self a b t0 clk ins lg)
                  (Nat.lt_succ_diag_r _)) as H1.
    destruct (poll_loop (S (List.length ins)) (__gpio_echo self) 0 _ _ _ _ _)
      as [[v|start_time] s1|e s1|s1|]; try exact H1.
    + destruct H1 as [Hr Hv]. split; [exact (Hlog _ Hr)|]. left. apply Hv. reflexivity.
    + destruct H1 as [Hr1 _].
      assert (Hlen : (List.length (echo s1) < S (List.length ins))%nat).
      { destruct Hr1 as (_ & Hl & _). unfold after_trigger in Hl. cbn [echo] in Hl. lia. }
      pose proof (poll_loop_reads (__gpio_echo self) 1 (__max_wait_time self)
                    (__max_range self) t0 (S (List.length ins)) b s1 Hlen) as H2.
      destruct (poll_loop (S (List.length ins)) (__gpio_echo self) 1 _ _ _ _ _)
        as [[v|stop_time] s2|e s2|s2|]; try exact H2.
      * destruct H2 as [Hr2 Hv]. split; [exact (Hlog _ (reads_only_trans _ _ _ Hr1 Hr2))|].
        right. left. apply Hv. reflexivity.
      * destruct H2 as [Hr2 _]. split; [exact (Hlog _ (reads_only_trans _ _ _ Hr1 Hr2))|].
        right. right. eexists. reflexivity.
      * exact (Hlog _ (reads_only_trans _ _ _ Hr1 H2)).
    + exact (Hlog _ H1).
Qed.

(** C7. Whatever the environment does, the external calls of [get_range]
    start with: trigger output high, a sleep of 0.00001 s, trigger output
    low; every later call is a clock or echo read, so the trigger line is
    not written again. *)
Theorem get_range_trigger_sequence (s : State) :
  exists (s' : State) (d : list Event),
    final_state (get_range s) = Some s' /\
    log s' = log s ++
             [EvOutput (__gpio_trigger (this s)) HIGH;
              EvSleep (fdiv (of_int 1) (of_int 100000));
              EvOutput (__gpio_trigger (this s)) LOW] ++ d /\
    forallb is_read d = true.
Proof.
  pose proof (get_range_outcome s) as H.
  destruct (get_range s) as [v s'|e s'|s'|]; try contradiction.
  - destruct H as [(_ & d & Hd & Hr) _]. exists s', d. auto.
  - destruct H as (_ & d & Hd & Hr). exists s', d. auto.
Qed.

Lemma clamp_range_bounded (self : UltraSonicSonar) (x : float) :
  fle (__min_range self) (__max_range self) = true ->
  is_nan (clamp_range self x) = false ->
  fle (__min_range self) (clamp_range self x) = true /\
  fle (clamp_range self x) (__max_range self) = true.
Proof.
  intros Hb. destruct (fle_not_nan _ _ Hb) as [Hmin Hmax].
  pose proof (fle_not_fgt _ _ Hb) as Hb'. rewrite fgt_flt in Hb'.
  unfold clamp_range. destruct (fgt x (__max_range self)) eqn:Hgt.
  - rewrite Hb'. intros _. split; [exact Hb|apply fle_refl, Hmax].
  - destruct (flt x (__min_range self)) eqn:Hlt.
    + intros _. split; [apply fle_refl, Hmin|exact Hb].
    + intros Hx. split.
      * apply not_fgt_fle; assumption.
      * apply not_fgt_fle; assumption.
Qed.

(** C10. With bounds in order, every number [get_range] returns lies
    between [min_range] and [max_range], on the clamped path and on the
    end-wait timeout path alike. *)
Theorem get_range_in_bounds (s : State) (v : float) (s' : State) :
  fle (min_range (this s)) (max_range (this s)) = true ->
  get_range s = Returns v s' ->
  is_nan v = false ->
  fle (min_range (this s)) v = true /\ fle v (max_range (this s)) = true.
Proof.
  unfold min_range, max_range. intros Hb Hrun Hv.
  pose proof (get_range_outcome s) as H. rewrite Hrun in H.
  destruct H as [_ [->|[->|[x ->]]]].
  - discriminate.
  - split; [exact Hb|]. apply fle_refl, Hv.
  - apply clamp_range_bounded; assumption.
Qed.

Lemma get_range_in_bounds_witness :
  fle (min_range (this (mkState sonar_right pulse_clock pulse_echo [])))
      (max_range (this (mkState sonar_right pulse_clock pulse_echo []))) = true /\
  get_range (mkState sonar_right pulse_clock pulse_echo []) =
    Returns pulse_range pulse_final /\
  is_nan pulse_range = false /\
  fle (min_range (this (mkState sonar_right pulse_clock pulse_echo []))) pulse_range = true /\
  fle pulse_range (max_range (this (mkState sonar_right pulse_clock pulse_echo []))) = true.
Proof.
  assert (H1 : fle (min_range (this (mkState sonar_right pulse_clock pulse_echo [])))
                   (max_range (this (mkState sonar_right pulse_clock pulse_echo []))) = true)
    by (vm_compute; reflexivity).
  assert (H2 : get_range (mkState sonar_right pulse_clock pulse_echo []) =
               Returns pulse_range pulse_final) by (vm_compute; reflexivity).
  assert (H3 : is_nan pulse_range = false) by (vm_compute; reflexivity).
  split; [exact H1|]. split; [exact H2|]. split; [exact H3|].
  exact (get_range_in_bounds _ pulse_range pulse_final H1 H2 H3).
Defined.

(** ** Independence from the rest of the script and from the earlier log *)

Lemma poll_loop_frame (pin want : Z) (mwt tv t0 : float) (fuel : nat) :
  forall (t : float) obj clk ins lg (r : Flow) (s' : State),
    poll_loop fuel pin want mwt tv t0 t (mkState obj clk ins lg) = Returns r s' ->
    exists clk' ins' d,
      s' = mkState obj clk' ins' (lg ++ d) /\
      forall (fuel2 : nat) obj2 clk2 ins2 lg2,
        (fuel <= fuel2)%nat ->
        poll_loop fuel2 pin want mwt tv t0 t
                  (mkState obj2 (clk ++ clk2) (ins ++ ins2) lg2) =
        Returns r (mkState obj2 (clk' ++ clk2) (ins' ++ ins2) (lg2 ++ d)).
Proof.
  induction fuel as [|fuel IH]; intros t obj clk ins lg r s' Hrun; [discriminate|].
  cbn [poll_loop] in Hrun. unfold bind, GPIO_input in Hrun. cbn [echo this clock log] in Hrun.
  destruct ins as [|l ins]; [discriminate|].
  destruct (level_int l =? want) eqn:Hl.
  - unfold time_time in Hrun. cbn [echo this clock log] in Hrun.
    destruct clk as [|t1 clk]; [discriminate|].
    destruct (fgt (fsub t1 t0) mwt) eqn:Ht.
    + injection Hrun as <- <-. exists clk, ins, [EvInput pin l; EvTime t1].
      split; [rewrite <- app_assoc; reflexivity|].
      intros [|fuel2] obj2 clk2 ins2 lg2 Hle; [lia|].
      apply Z.eqb_eq in Hl. cbn [app].
      apply poll_loop_timeout; assumption.
    + destruct (IH _ _ _ _ _ _ _ Hrun) as (clk' & ins' & d & -> & Hext).
      exists clk', ins', ([EvInput pin l; EvTime t1] ++ d).
      split; [rewrite <- !app_assoc; reflexivity|].
      intros [|fuel2] obj2 clk2 ins2 lg2 Hle; [lia|].
      apply Z.eqb_eq in Hl. cbn [app].
      rewrite poll_loop_step by assumption.
      rewrite (Hext fuel2 obj2 clk2 ins2) by lia.
      rewrite <- !app_assoc. reflexivity.
  - injection Hrun as <- <-. exists clk, ins, [EvInput pin l].
    split; [reflexivity|].
    intros [|fuel2] obj2 clk2 ins2 lg2 Hle; [lia|].
    apply Z.eqb_neq in Hl. cbn [app].
    apply poll_loop_exit; assumption.
Qed.

(** A returning run of [get_range] returns the same value when more script
    follows and when the log starts differently; what it did not consume is
    left for the next call. *)
Lemma get_range_frame (self : UltraSonicSonar) clk ins lg (v : float) (s' : State) :
  get_range (mkState self clk ins lg) = Returns v s' ->
  exists clk' ins' d,
    s' = mkState self clk' ins' (lg ++ d) /\
    forall clk2 ins2 lg2,
      get_range (mkState self (clk ++ clk2) (ins ++ ins2) lg2) =
      Returns v (mkState self (clk' ++ clk2) (ins' ++ ins2) (lg2 ++ d)).
Proof.
  destruct clk as [|a [|b [|t0 clk]]];
    try (cbv [get_range bind get_self GPIO_output time_sleep emit time_time
              this clock echo log]; discriminate).
  rewrite get_range_unfold. unfold after_trigger.
  destruct (poll_loop (S (List.length ins)) (__gpio_echo self) 0 _ _ _ _ _)
    as [r1 s1|e s1|s1|] eqn:H1; try discriminate.
  destruct (poll_loop_frame _ _ _ _ _ _ _ _ _ _ _ _ _ H1) as (clk1 & ins1 & d1 & -> & Hext1).
  assert (Hfuel : forall ins2, (S (List.length ins) <= S (List.length (ins ++ ins2)))%nat)
    by (intros; rewrite length_app; lia).
  destruct r1 as [v1|start_time].
  - intros Hv. injection Hv as <- <-.
    exists clk1, ins1, (trigger_pulse self ++ [EvTime a; EvTime b; EvTime t0] ++ d1).
    split; [rewrite <- !app_assoc; reflexivity|].
    intros clk2 ins2 lg2. cbn [app]. rewrite get_range_unfold. unfold after_trigger.
    rewrite (Hext1 _ self clk2 ins2 _ (Hfuel ins2)).
    rewrite <- !app_assoc. reflexivity.
  - destruct (poll_loop (S (List.length ins)) (__gpio_echo self) 1 _ _ _ _ _)
      as [r2 s2|e s2|s2|] eqn:H2; try discriminate.
    destruct (poll_loop_frame _ _ _ _ _ _ _ _ _ _ _ _ _ H2)
      as (clk3 & ins3 & d2 & -> & Hext2).
    intros Hv.
    exists clk3, ins3, (trigger_pulse self ++ [EvTime a; EvTime b; EvTime t0] ++ d1 ++ d2).
    assert (Hs : s' = mkState self clk3 ins3
                   (lg ++ trigger_pulse self ++ [EvTime a; EvTime b; EvTime t0] ++ d1 ++ d2)
                 /\ v = match r2 with
                        | EarlyReturn v2 => v2
                        | LoopDone stop_time =>
                            clamp_range self (fmul (fsub stop_time start_time) HALF_SONIC_SPEED)
                        end).
    { destruct r2; injection Hv as <- <-; rewrite <- !app_assoc; split; reflexivity. }
    destruct Hs as [-> ->]. split; [reflexivity|].
    intros clk2 ins2 lg2. cbn [app]. rewrite get_range_unfold. unfold after_trigger.
    rewrite (Hext1 _ self clk2 ins2 _ (Hfuel ins2)).
    rewrite (Hext2 _ self clk2 ins2 _ (Hfuel ins2)).
    rewrite <- !app_assoc. destruct r2; reflexivity.
Qed.

Lemma get_range_preserves_this (s s' : State) :
  final_state (get_range s) = Some s' -> this s' = this s.
Proof.
  pose proof (get_range_outcome s) as H.
  destruct (get_range s) as [v s1|e s1|s1|]; try contradiction;
    intros E; injection E as <-.
  - destruct H as [[Ht _] _]. exact Ht.
  - destruct H as [Ht _]. exact Ht.
Qed.

Lemma init_hw_preserves_this (s s' : State) :
  final_state (init_hw s) = Some s' -> this s' = this s.
Proof. cbv [init_hw bind get_self GPIO_setmode_BCM GPIO_setup GPIO_output emit final_state].
  intros E. injection E as <-. reflexivity.
Qed.

(** C8. [get_range] leaves every field of the instance as it was; and when
    a call that consumed the script [clk], [ins] returned [v], two calls in
    a row against that script played twice both return [v]. *)
Theorem get_range_repeatable (self : UltraSonicSonar) clk ins lg (v : float) (s' : State) :
  get_range (mkState self clk ins lg) = Returns v s' ->
  clock s' = [] ->
  echo s' = [] ->
  this s' = self /\
  exists s'' : State,
    (v1 <- get_range ;; v2 <- get_range ;; ret (v1, v2))
      (mkState self (clk ++ clk) (ins ++ ins) lg) = Returns (v, v) s''
    /\ this s'' = self /\ clock s'' = [] /\ echo s'' = [].
Proof.
  intros Hrun Hclk Hins.
  destruct (get_range_frame _ _ _ _ _ _ Hrun) as (clk' & ins' & d & -> & Hext).
  cbn in Hclk, Hins. subst clk' ins'.
  split; [reflexivity|].
  exists (mkState self [] [] ((lg ++ d) ++ d)).
  split; [|repeat split].
  unfold bind. rewrite (Hext clk ins lg). cbn [app].
  pose proof (Hext [] [] (lg ++ d)) as H2. rewrite !app_nil_r in H2.
  rewrite H2. reflexivity.
Qed.

Lemma get_range_repeatable_witness :
  get_range (mkState sonar_right pulse_clock pulse_echo []) =
    Returns pulse_range pulse_final /\
  clock pulse_final = [] /\ echo pulse_final = [] /\
  this pulse_final = sonar_right /\
  exists s'' : State,
    (v1 <- get_range ;; v2 <- get_range ;; ret (v1, v2))
      (mkState sonar_right (pulse_clock ++ pulse_clock) (pulse_echo ++ pulse_echo) []) =
    Returns (pulse_range, pulse_range) s''
    /\ this s'' = sonar_right /\ clock s'' = [] /\ echo s'' = [].
Proof.
  assert (H1 : get_range (mkState sonar_right pulse_clock pulse_echo []) =
               Returns pulse_range pulse_final) by (vm_compute; reflexivity).
  split; [exact H1|]. split; [reflexivity|]. split; [reflexivity|].
  exact (get_range_repeatable sonar_right pulse_clock pulse_echo [] pulse_range pulse_final
           H1 eq_refl eq_refl).
Defined.

(** ** The wait budget *)

Lemma poll_loop_bounded (pin want : Z) (mwt tv t0 : float) (pre : list float) :
  forall (fuel : nat) (t x : float) obj clk ins lg,
    fgt (fsub x t0) mwt = true ->
    (List.length pre < List.length ins)%nat ->
    (List.length ins < fuel)%nat ->
    exists (r : Flow) (s' : State),
      poll_loop fuel pin want mwt tv t0 t (mkState obj (pre ++ x :: clk) ins lg) =
      Returns r s' /\
      this s' = obj /\
      match r with
      | EarlyReturn _ => exists unread, clock s' = unread ++ clk
      | LoopDone _ =>
          exists pre', clock s' = pre' ++ x :: clk /\
            (List.length pre' <= List.length pre)%nat /\
            (List.length (echo s') + List.length pre + 1 =
             List.length ins + List.length pre')%nat
      end.
Proof.
  induction pre as [|p pre IH]; intros fuel t x obj clk ins lg Hx Hlen Hf.
  - destruct ins as [|l ins]; [cbn in Hlen; lia|].
    destruct fuel as [|fuel]; [lia|].
    destruct (Z.eq_dec (level_int l) want) as [Hl|Hl].
    + cbn [app]. rewrite (poll_loop_timeout pin want mwt tv t0 fuel l t x) by assumption.
      eexists _, _. split; [reflexivity|]. split; [reflexivity|]. exists []. reflexivity.
    + rewrite poll_loop_exit by assumption.
      eexists _, _. split; [reflexivity|]. split; [reflexivity|].
      exists []. cbn. split; [reflexivity|lia].
  - destruct ins as [|l ins]; [cbn in Hlen; lia|].
    destruct fuel as [|fuel]; [lia|].
    cbn [List.length] in Hlen, Hf.
    destruct (Z.eq_dec (level_int l) want) as [Hl|Hl].
    + cbn [app]. destruct (fgt (fsub p t0) mwt) eqn:Hp.
      * rewrite (poll_loop_timeout pin want mwt tv t0 fuel l t p) by assumption.
        eexists _, _. split; [reflexivity|]. split; [reflexivity|].
        exists (pre ++ [x]). cbn [clock]. rewrite <- app_assoc. reflexivity.
      * rewrite poll_loop_step by assumption.
        destruct (IH fuel p x obj clk ins ((lg ++ [EvInput pin l]) ++ [EvTime p]) Hx)
          as (r & s' & Hrun & Hthis & Hr); try lia.
        exists r, s'. split; [exact Hrun|]. split; [exact Hthis|].
        destruct r as [v|t'].
        -- exact Hr.
        -- destruct Hr as (pre' & Hc & Hle & Hl'). exists pre'. split; [exact Hc|].
           cbn [List.length]. lia.
    + rewrite poll_loop_exit by assumption.
      eexists _, _. split; [reflexivity|]. split; [reflexivity|].
      exists (p :: pre). cbn. split; [reflexivity|lia].
Qed.

(** C5, as the code has it. Both wait phases test a fresh clock sample
    against the one reference [t0], sampled once after the trigger pulse. So
    when the clock script reaches a sample [x] with [x - t0] beyond the
    budget, and the echo script is long enough to get there, the call
    returns and has read no clock sample after [x]. *)
Theorem get_range_single_budget (self : UltraSonicSonar) (a b t0 : float)
    (pre : list float) (x : float) clk ins lg :
  timed_out self t0 x = true ->
  (List.length pre + 2 <= List.length ins)%nat ->
  exists (v : float) (s' : State) (unread : list float),
    get_range (mkState self (a :: b :: t0 :: pre ++ x :: clk) ins lg) = Returns v s' /\
    clock s' = unread ++ clk.
Proof.
  intros Hx Hlen. rewrite get_range_unfold. unfold after_trigger.
  destruct (poll_loop_bounded (__gpio_echo self) 0 (__max_wait_time self) math_nan t0 pre
              (S (List.length ins)) a x self clk ins
              (lg ++ trigger_pulse self ++ [EvTime a; EvTime b; EvTime t0]) Hx)
    as (r1 & s1 & -> & Hthis1 & Hr1); try lia.
  destruct r1 as [v|start_time].
  - destruct Hr1 as [unread Hu]. exists v, s1, unread. auto.
  - destruct Hr1 as (pre' & Hc & Hle & Hl). destruct s1 as [obj1 clk1 ins1 lg1].
    cbn [clock echo this] in Hc, Hl, Hthis1. subst clk1 obj1.
    destruct (poll_loop_bounded (__gpio_echo self) 1 (__max_wait_time self)
                (__max_range self) t0 pre' (S (List.length ins)) b x self clk ins1 lg1 Hx)
      as (r2 & s2 & -> & _ & Hr2); try lia.
    destruct r2 as [v|stop_time].
    + destruct Hr2 as [unread Hu]. exists v, s2, unread. auto.
    + destruct Hr2 as (pre'' & Hc2 & _ & _).
      eexists _, s2, (pre'' ++ [x]). split; [reflexivity|].
      rewrite Hc2, <- app_assoc. reflexivity.
Qed.

Lemma get_range_single_budget_witness :
  timed_out sonar_right (ms 0) (ms 13) = true /\
  (List.length [ms 10] + 2 <= List.length [LOW; HIGH; HIGH; HIGH; LOW])%nat /\
  exists (v : float) (s' : State) (unread : list float),
    get_range (mkState sonar_right (ms 0 :: ms 0 :: ms 0 :: [ms 10] ++ ms 13 :: [ms 14])
                       [LOW; HIGH; HIGH; HIGH; LOW] []) = Returns v s' /\
    clock s' = unread ++ [ms 14].
Proof.
  assert (H1 : timed_out sonar_right (ms 0) (ms 13) = true) by (vm_compute; reflexivity).
  assert (H2 : (List.length [ms 10] + 2 <= List.length [LOW; HIGH; HIGH; HIGH; LOW])%nat)
    by (cbn; lia).
  split; [exact H1|]. split; [exact H2|].
  exact (get_range_single_budget sonar_right (ms 0) (ms 0) (ms 0) [ms 10] (ms 13) [ms 14]
           [LOW; HIGH; HIGH; HIGH; LOW] [] H1 H2).
Defined.

(** C5, as the specification words it, fails: with a budget of 12 ms the echo
    is found high after the sample at 10 ms, and the sample at 13 ms, only
    3 ms into the end-wait phase, already ends the call. *)
Lemma independent_phase_budgets_fails : ~ independent_phase_budgets.
Proof.
  intros H.
  specialize (H sonar_right (ms 0) (ms 0) (ms 0) [ms 10] [] (ms 13) [ms 14] [LOW] []
                (of_int 4)
                (mkState sonar_right [ms 14] [HIGH; LOW]
                   (trigger_pulse sonar_right
                      ++ [EvTime (ms 0); EvTime (ms 0); EvTime (ms 0)]
                      ++ polls 14 LOW [ms 10] ++ [EvInput 14 HIGH]
                      ++ [EvInput 14 HIGH; EvTime (ms 13)]))).
  assert (H1 : in_budget sonar_right (ms 0) [ms 10])
    by (repeat constructor; vm_compute; reflexivity).
  assert (H2 : in_budget sonar_right (ms 0) []) by constructor.
  assert (H3 : timed_out sonar_right (last [ms 10] (ms 0)) (ms 13) = false)
    by (vm_compute; reflexivity).
  specialize (H H1 H2 H3).
  assert (H4 : (1 < 1)%nat) by (apply H; vm_compute; reflexivity).
  lia.
Qed.

(** ** The constructor *)

(** [ceil_scaled n (-p)] is the least integer not below [n / 2^p]. *)
Lemma ceil_scaled_least (n : Z) (p : positive) :
  let c := ceil_scaled n (Zneg p) in
  (c - 1) * 2 ^ Zpos p < n <= c * 2 ^ Zpos p.
Proof.
  cbn zeta. unfold ceil_scaled.
  assert (Hd : 0 < 2 ^ Zpos p) by (apply Z.pow_pos_nonneg; lia).
  pose proof (Z.div_mod (- n) (2 ^ Zpos p) ltac:(lia)) as Hdm.
  pose proof (Z.mod_pos_bound (- n) (2 ^ Zpos p) Hd) as Hm.
  nia.
Qed.

(** C2, as the specification words it, fails: inverted bounds are accepted. *)
Lemma bounds_validated_fails : ~ bounds_validated.
Proof.
  intros H.
  destruct (H "right"%string 15 14 (of_int 4) (fdiv (of_int 5) (of_int 100)) None)
    as [e He].
  - left. vm_compute. reflexivity.
  - vm_compute in He. discriminate.
Qed.

(** C2, as the code has it. The constructor compares nothing: it never
    looks at [min_range], nor at the order or the sign of the bounds. It
    raises exactly when [math.ceil] does, on a NaN (ValueError) or an
    infinite (OverflowError) value of [max_range / SONIC_SPEED * 1000], as
    every NaN or infinite [max_range] gives; otherwise it stores both bounds
    as given. [get_range] raises nothing. *)
Theorem init_validates_nothing (nm : string) (trig ech : Z) (mn mx : float)
    (fov : option float) :
  match fmul (fdiv mx SONIC_SPEED) (of_int 1000) with
  | S754_nan => __init__ nm trig ech mn mx fov = inl ValueError
  | S754_infinity _ => __init__ nm trig ech mn mx fov = inl OverflowError
  | S754_zero _ | S754_finite _ _ _ =>
      exists self, __init__ nm trig ech mn mx fov = inr self /\
                   min_range self = mn /\ max_range self = mx
  end
  /\ match mx with
     | S754_nan => __init__ nm trig ech mn mx fov = inl ValueError
     | S754_infinity _ => __init__ nm trig ech mn mx fov = inl OverflowError
     | S754_zero _ | S754_finite _ _ _ => True
     end
  /\ forall (s : State) (e : Exn) (s' : State), get_range s <> Raises e s'.
Proof.
  split; [|split].
  - unfold __init__.
    destruct (fmul (fdiv mx SONIC_SPEED) (of_int 1000)) as [sx|sx| |sx m e];
      cbn [math_ceil]; try reflexivity; eexists; repeat split.
  - destruct mx as [sx|sx| |sx m e]; try exact I; reflexivity.
  - intros s e s' E. pose proof (get_range_outcome s) as H. rewrite E in H. exact H.
Qed.

(** C6. A constructed sensor has [max_wait_time] equal to
    [ceil(max_range / 343.0 * 1000) / 1000], and neither [init_hw] nor
    [get_range] changes it. *)
Theorem max_wait_time_formula (nm : string) (trig ech : Z) (mn mx : float)
    (fov : option float) (self : UltraSonicSonar) :
  __init__ nm trig ech mn mx fov = inr self ->
  exists n : Z,
    math_ceil (fmul (fdiv mx (of_int 343)) (of_int 1000)) = inr n /\
    __max_wait_time self = fdiv (of_int n) (of_int 1000) /\
    (forall s s' : State,
        this s = self -> final_state (get_range s) = Some s' ->
        __max_wait_time (this s') = fdiv (of_int n) (of_int 1000)) /\
    (forall s s' : State,
        this s = self -> final_state (init_hw s) = Some s' ->
        __max_wait_time (this s') = fdiv (of_int n) (of_int 1000)).
Proof.
  unfold __init__. change SONIC_SPEED with (of_int 343).
  destruct (math_ceil (fmul (fdiv mx (of_int 343)) (of_int 1000))) as [e|n];
    [discriminate|].
  intros H. injection H as <-. exists n. split; [reflexivity|]. split; [reflexivity|].
  split; intros s s' Hs Hrun.
  - rewrite (get_range_preserves_this _ _ Hrun), Hs. reflexivity.
  - rewrite (init_hw_preserves_this _ _ Hrun), Hs. reflexivity.
Qed.

Lemma max_wait_time_formula_witness :
  __init__ "right" 15 14 (fdiv (of_int 5) (of_int 100)) (of_int 4) (Some (of_int 0)) =
    inr sonar_right /\
  exists n : Z,
    math_ceil (fmul (fdiv (of_int 4) (of_int 343)) (of_int 1000)) = inr n /\
    __max_wait_time sonar_right = fdiv (of_int n) (of_int 1000) /\
    (forall s s' : State,
        this s = sonar_right -> final_state (get_range s) = Some s' ->
        __max_wait_time (this s') = fdiv (of_int n) (of_int 1000)) /\
    (forall s s' : State,
        this s = sonar_right -> final_state (init_hw s) = Some s' ->
        __max_wait_time (this s') = fdiv (of_int n) (of_int 1000)).
Proof.
  split; [exact sonar_right_init|].
  exact (max_wait_time_formula "right" 15 14 _ _ _ sonar_right sonar_right_init).
Defined.

(** For the bounds of the notebook, 4.0 / 343.0 * 1000 is about 11.66, its
    ceiling is 12 and the budget is 0.012 s. *)
Example max_wait_time_4m :
  math_ceil (fmul (fdiv (of_int 4) (of_int 343)) (of_int 1000)) = inr 12 /\
  __max_wait_time sonar_right = fdiv (of_int 12) (of_int 1000).
Proof. split; vm_compute; reflexivity. Qed.

(** C9. A constructed sensor stores the field of view it was given,
    multiplied once by pi/180; left out, it stores NaN; the property returns
    the stored value. *)
Theorem field_of_view_radians (nm : string) (trig ech : Z) (mn mx : float)
    (fov : option float) (self : UltraSonicSonar) :
  __init__ nm trig ech mn mx fov = inr self ->
  field_of_view self = __field_of_view self /\
  match fov with
  | Some deg => __field_of_view self = fmul deg (fdiv math_pi (of_int 180))
  | None => __field_of_view self = math_nan
  end.
Proof.
  unfold __init__.
  destruct (math_ceil (fmul (fdiv mx SONIC_SPEED) (of_int 1000))) as [e|n];
    [discriminate|].
  intros H. injection H as <-. split; [reflexivity|]. cbn [__field_of_view].
  destruct fov as [deg|]; [|reflexivity].
  destruct deg; reflexivity.
Qed.

Lemma field_of_view_radians_witness :
  __init__ "right" 15 14 (fdiv (of_int 5) (of_int 100)) (of_int 4) (Some (of_int 0)) =
    inr sonar_right /\
  field_of_view sonar_right = __field_of_view sonar_right /\
  __field_of_view sonar_right = fmul (of_int 0) (fdiv math_pi (of_int 180)).
Proof.
  split; [exact sonar_right_init|].
  exact (field_of_view_radians "right" 15 14 _ _ (Some (of_int 0)) sonar_right
           sonar_right_init).
Defined.

(** 90 degrees is stored as the double nearest to pi/2, and a sensor built
    without a field of view stores NaN. *)
Example field_of_view_90 :
  match __init__ "s" 1 2 (of_int 0) (of_int 4) (Some (of_int 90)) with
  | inr self => field_of_view self = S754_finite false 7074237752028440 (-52)
  | inl _ => False
  end.
Proof. vm_compute. reflexivity. Qed.

Example field_of_view_default :
  match __init__ "s" 1 2 (of_int 0) (of_int 4) None with
  | inr self => field_of_view self = math_nan
  | inl _ => False
  end.
Proof. vm_compute. reflexivity. Qed.

(** * Further properties of the code *)

(** ** Every returning run has one of three shapes *)

Lemma level_int_inj (l l' : Level) : level_int l = level_int l' -> l = l'.
Proof. destruct l, l'; intros H; try reflexivity; discriminate. Qed.

Lemma poll_loop_inv (l : Level) (pin : Z) (mwt tv t0 : float) (fuel : nat) :
  forall (t : float) obj clk ins lg (r : Flow) (s' : State),
    poll_loop fuel pin (level_int l) mwt tv t0 t (mkState obj clk ins lg) = Returns r s' ->
    exists (samples : list float),
      Forall (fun x => fgt (fsub x t0) mwt = false) samples /\
      this s' = obj /\
      ((exists x, r = EarlyReturn tv /\ fgt (fsub x t0) mwt = true /\
                  clk = samples ++ x :: clock s' /\
                  ins = repeat l (S (List.length samples)) ++ echo s' /\
                  log s' = lg ++ polls pin l samples ++ [EvInput pin l; EvTime x])
       \/
       (exists l', l' <> l /\ r = LoopDone (last samples t) /\
                   clk = samples ++ clock s' /\
                   ins = repeat l (List.length samples) ++ l' :: echo s' /\
                   log s' = lg ++ polls pin l samples ++ [EvInput pin l'])).
Proof.
  induction fuel as [|fuel IH]; intros t obj clk ins lg r s' Hrun; [discriminate|].
  cbn [poll_loop] in Hrun. unfold bind, GPIO_input in Hrun. cbn [echo this clock log] in Hrun.
  destruct ins as [|li ins]; [discriminate|].
  destruct (level_int li =? level_int l) eqn:Hl.
  - apply Z.eqb_eq, level_int_inj in Hl. subst li.
    unfold time_time in Hrun. cbn [echo this clock log] in Hrun.
    destruct clk as [|t1 clk]; [discriminate|].
    destruct (fgt (fsub t1 t0) mwt) eqn:Ht.
    + injection Hrun as <- <-. exists []. split; [constructor|]. split; [reflexivity|].
      left. exists t1. cbn. rewrite <- app_assoc. auto.
    + destruct (IH _ _ _ _ _ _ _ Hrun) as (samples & Hs & Hthis & Hshape).
      exists (t1 :: samples). split; [constructor; assumption|]. split; [exact Hthis|].
      destruct Hshape as [(x & Hr & Hx & Hclk & Hins & Hlog)
                         |(l' & Hl' & Hr & Hclk & Hins & Hlog)].
      * left. exists x. rewrite Hlog. subst clk ins.
        cbn [polls flat_map app List.length repeat]. rewrite <- !app_assoc. auto.
      * right. exists l'. rewrite Hlog, last_cons. subst clk ins.
        cbn [polls flat_map app List.length repeat]. rewrite <- !app_assoc. auto.
  - injection Hrun as <- <-. exists []. split; [constructor|]. split; [reflexivity|].
    right. exists li. cbn. repeat split; try reflexivity.
    intros ->. rewrite Z.eqb_refl in Hl. discriminate.
Qed.

(** X1. Whenever [get_range] returns, the environment behaved in one of three
    ways and the value follows from it: the echo line read low until a
    sample beyond the budget (NaN); it read low, then high until a sample
    beyond the budget ([max_range]); or it read low, then high, then low
    (the clamped range). *)
Theorem get_range_returns_inv (self : UltraSonicSonar) clk0 ins lg (v : float) (s' : State) :
  get_range (mkState self clk0 ins lg) = Returns v s' ->
  exists (a b t0 : float) (lows : list float),
    in_budget self t0 lows /\
    ((exists t,
         timed_out self t0 t = true /\
         clk0 = a :: b :: t0 :: lows ++ t :: clock s' /\
         ins = repeat LOW (S (List.length lows)) ++ echo s' /\
         v = math_nan)
     \/
     (exists highs t,
         in_budget self t0 highs /\ timed_out self t0 t = true /\
         clk0 = a :: b :: t0 :: lows ++ highs ++ t :: clock s' /\
         ins = repeat LOW (List.length lows) ++
               HIGH :: repeat HIGH (S (List.length highs)) ++ echo s' /\
         v = __max_range self)
     \/
     (exists highs,
         in_budget self t0 highs /\
         clk0 = a :: b :: t0 :: lows ++ highs ++ clock s' /\
         ins = repeat LOW (List.length lows) ++
               HIGH :: repeat HIGH (List.length highs) ++ LOW :: echo s' /\
         v = clamp_range self
               (fmul (fsub (last highs b) (last lows a)) HALF_SONIC_SPEED))).
Proof.
  destruct clk0 as [|a [|b [|t0 clk]]];
    try (cbv [get_range bind get_self GPIO_output time_sleep emit time_time
              this clock echo log]; discriminate).
  rewrite get_range_unfold. unfold after_trigger.
  destruct (poll_loop (S (List.length ins)) (__gpio_echo self) 0 _ _ _ _ _)
    as [r1 s1|e s1|s1|] eqn:H1; try discriminate.
  destruct (poll_loop_inv LOW _ _ _ _ _ _ _ _ _ _ _ _ H1) as (lows & Hlows & Hthis1 & Hshape1).
  intros Hv. exists a, b, t0, lows. split; [exact Hlows|]. revert Hv.
  destruct Hshape1 as [(t & -> & Ht & Hclk & Hins & _)|(l' & Hl' & -> & Hclk & Hins & _)].
  - intros Hv. injection Hv as <- <-. left. exists t. subst clk ins. auto.
  - assert (l' = HIGH) by (destruct l'; [contradiction|reflexivity]). subst l'.
    destruct s1 as [obj1 clk1 ins1 lg1]. cbn [this clock echo] in Hthis1, Hclk, Hins.
    subst obj1.
    destruct (poll_loop (S (List.length ins)) (__gpio_echo self) 1 _ _ _ _ _)
      as [r2 s2|e s2|s2|] eqn:H2; try discriminate.
    destruct (poll_loop_inv HIGH _ _ _ _ _ _ _ _ _ _ _ _ H2)
      as (highs & Hhighs & _ & Hshape2).
    destruct Hshape2 as [(t & -> & Ht & Hclk2 & Hins2 & _)|(l' & Hl2 & -> & Hclk2 & Hins2 & _)].
    + intros Hv. injection Hv as <- <-. right. left. exists highs, t.
      subst clk ins clk1 ins1. rewrite repeat_snoc_app. auto.
    + assert (l' = LOW) by (destruct l'; [reflexivity|contradiction]). subst l'.
      intros Hv. injection Hv as <- <-. right. right. exists highs.
      subst clk ins clk1 ins1. auto.
Qed.

Lemma get_range_returns_inv_witness :
  get_range (mkState sonar_right pulse_clock pulse_echo []) = Returns pulse_range pulse_final /\
  exists (a b t0 : float) (lows : list float),
    in_budget sonar_right t0 lows /\
    ((exists t,
         timed_out sonar_right t0 t = true /\
         pulse_clock = a :: b :: t0 :: lows ++ t :: clock pulse_final /\
         pulse_echo = repeat LOW (S (List.length lows)) ++ echo pulse_final /\
         pulse_range = math_nan)
     \/
     (exists highs t,
         in_budget sonar_right t0 highs /\ timed_out sonar_right t0 t = true /\
         pulse_clock = a :: b :: t0 :: lows ++ highs ++ t :: clock pulse_final /\
         pulse_echo = repeat LOW (List.length lows) ++
               HIGH :: repeat HIGH (S (List.length highs)) ++ echo pulse_final /\
         pulse_range = __max_range sonar_right)
     \/
     (exists highs,
         in_budget sonar_right t0 highs /\
         pulse_clock = a :: b :: t0 :: lows ++ highs ++ clock pulse_final /\
         pulse_echo = repeat LOW (List.length lows) ++
               HIGH :: repeat HIGH (List.length highs) ++ LOW :: echo pulse_final /\
         pulse_range = clamp_range sonar_right
               (fmul (fsub (last highs b) (last lows a)) HALF_SONIC_SPEED))).
Proof.
  assert (H1 : get_range (mkState sonar_right pulse_clock pulse_echo []) =
               Returns pulse_range pulse_final) by (vm_compute; reflexivity).
  split; [exact H1|].
  exact (get_range_returns_inv sonar_right pulse_clock pulse_echo [] pulse_range
           pulse_final H1).
Defined.

(** ** Signs of rounded results *)

Lemma shr_1_nonneg (mrs : shr_record) : 0 <= shr_m mrs -> 0 <= shr_m (shr_1 mrs).
Proof.
  destruct mrs as [m r s]. cbn [shr_m]. intros Hm.
  destruct m as [|[p|p|]|p]; cbn; lia.
Qed.

Lemma iter_shr_1_nonneg (p : positive) :
  forall mrs : shr_record, 0 <= shr_m mrs -> 0 <= shr_m (iter_pos shr_1 p mrs).
Proof.
  induction p as [p IH|p IH|]; intros mrs Hm; cbn [iter_pos].
  - apply IH, IH, shr_1_nonneg, Hm.
  - apply IH, IH, Hm.
  - apply shr_1_nonneg, Hm.
Qed.

Lemma shr_fexp_nonneg (m e : Z) (l : location) :
  0 <= m -> 0 <= shr_m (fst (shr_fexp prec emax m e l)).
Proof.
  intros Hm. unfold shr_fexp, shr.
  assert (H0 : 0 <= shr_m (shr_record_of_loc m l)).
  { destruct l as [|[]]; exact Hm. }
  destruct (fexp prec emax (Zdigits2 m + e) - e) as [|p|p]; cbn [fst]; try exact H0.
  apply iter_shr_1_nonneg, H0.
Qed.

Lemma round_nearest_even_nonneg (m : Z) (l : location) :
  0 <= m -> 0 <= round_nearest_even m l.
Proof.
  intros Hm. unfold round_nearest_even.
  destruct l as [|[]]; try exact Hm; try lia. destruct (Z.even m); lia.
Qed.

(** Rounding a non-negative mantissa never gives NaN and keeps the sign. *)
Lemma binary_round_aux_sign (sx : bool) (mx ex : Z) (lx : location) :
  0 <= mx -> sign_bit (binary_round_aux prec emax sx mx ex lx) = Some sx.
Proof.
  intros Hm. unfold binary_round_aux.
  pose proof (shr_fexp_nonneg mx ex lx Hm) as H1.
  destruct (shr_fexp prec emax mx ex lx) as [mrs' e']. cbn [fst] in H1.
  pose proof (shr_fexp_nonneg _ e' loc_Exact
                (round_nearest_even_nonneg _ (loc_of_shr_record mrs') H1)) as H2.
  destruct (shr_fexp prec emax _ e' loc_Exact) as [mrs'' e'']. cbn [fst] in H2.
  destruct (shr_m mrs'') as [|m|m]; [reflexivity| |lia].
  destruct (e'' <=? emax - prec); reflexivity.
Qed.

Lemma binary_round_sign (sx : bool) (m : positive) (e : Z) :
  sign_bit (binary_round prec emax sx m e) = Some sx.
Proof.
  unfold binary_round. destruct (shl_align m e _) as [mz ez].
  apply binary_round_aux_sign. lia.
Qed.

Lemma binary_normalize_sign (m e : Z) :
  sign_bit (binary_normalize prec emax m e false) = Some (m <? 0).
Proof. destruct m as [|p|p]; [reflexivity| |]; apply binary_round_sign. Qed.


(** The difference of two finite floats is a number. *)
Lemma fsub_finite_not_nan (a b : float) :
  is_finite a = true -> is_finite b = true -> is_nan (fsub a b) = false.
Proof.
  destruct a as [sa|sa| |sa ma ea], b as [sb|sb| |sb mb eb]; try discriminate; intros _ _.
  - destruct sa, sb; reflexivity.
  - reflexivity.
  - reflexivity.
  - unfold fsub, SFsub.
    match goal with |- is_nan (binary_normalize _ _ ?m ?e _) = false =>
      pose proof (binary_normalize_sign m e) as H end.
    destruct (binary_normalize prec emax _ _ false); try reflexivity; discriminate.
Qed.

(** Multiplying or dividing a number by a finite non-zero float gives a
    number whose sign is the product of the signs. *)
Lemma fmul_finite_sign (x : float) (s sy : bool) (my : positive) (ey : Z) :
  sign_bit x = Some s ->
  sign_bit (fmul x (S754_finite sy my ey)) = Some (xorb s sy).
Proof.
  destruct x as [sx|sx| |sx mx ex]; intros H; try discriminate; injection H as <-;
    try reflexivity.
  apply binary_round_aux_sign. lia.
Qed.


Lemma sign_bit_not_nan (x : float) (s : bool) : sign_bit x = Some s -> is_nan x = false.
Proof. destruct x; try reflexivity; discriminate. Qed.

Lemma not_nan_sign_bit (x : float) : is_nan x = false -> exists s, sign_bit x = Some s.
Proof. destruct x as [s|s| |s m e]; try discriminate; intros _; exists s; reflexivity. Qed.

Lemma HALF_SONIC_SPEED_finite :
  HALF_SONIC_SPEED = S754_finite false 6034119813234688 (-45).
Proof. vm_compute. reflexivity. Qed.

Lemma clamp_range_not_nan (self : UltraSonicSonar) (d : float) :
  is_nan d = false -> is_nan (clamp_range self d) = false.
Proof.
  intros Hd. unfold clamp_range.
  destruct (fgt d (__max_range self)) eqn:Hgt.
  - rewrite fgt_flt in Hgt. destruct (flt_not_nan _ _ Hgt) as [Hmax _].
    destruct (flt (__max_range self) (__min_range self)) eqn:Hlt; [|exact Hmax].
    apply (flt_not_nan _ _ Hlt).
  - destruct (flt d (__min_range self)) eqn:Hlt; [|exact Hd].
    apply (flt_not_nan _ _ Hlt).
Qed.

Lemma last_Forall {A : Type} (P : A -> Prop) (l : list A) (d : A) :
  Forall P l -> P d -> P (last l d).
Proof.
  intros Hl Hd. induction Hl as [|x l Hx Hl IH]; [exact Hd|].
  rewrite last_cons. clear IH. revert x Hx. induction Hl as [|y l Hy Hl IH]; intros x Hx.
  - exact Hx.
  - rewrite last_cons. apply IH, Hy.
Qed.

(** X2. With finite clock samples and a [max_range] that is a number, a NaN
    result says one thing only: every echo reading of the call was low, up
    to a sample beyond the budget. The clamped path never yields NaN. *)
Theorem get_range_nan_means_no_echo (self : UltraSonicSonar) clk0 ins lg
    (v : float) (s' : State) :
  get_range (mkState self clk0 ins lg) = Returns v s' ->
  Forall (fun t => is_finite t = true) clk0 ->
  is_nan (__max_range self) = false ->
  is_nan v = true ->
  exists (a b t0 : float) (lows : list float) (t : float),
    in_budget self t0 lows /\
    timed_out self t0 t = true /\
    clk0 = a :: b :: t0 :: lows ++ t :: clock s' /\
    ins = repeat LOW (S (List.length lows)) ++ echo s'.
Proof.
  intros Hrun Hfin Hmax Hv. revert Hrun.
  destruct clk0 as [|a [|b [|t0 clk]]];
    try (cbv [get_range bind get_self GPIO_output time_sleep emit time_time
              this clock echo log]; discriminate).
  rewrite get_range_unfold. unfold after_trigger.
  destruct (poll_loop (S (List.length ins)) (__gpio_echo self) 0 _ _ _ _ _)
    as [r1 s1|e s1|s1|] eqn:H1; try discriminate.
  destruct (poll_loop_inv LOW _ _ _ _ _ _ _ _ _ _ _ _ H1) as (lows & Hlows & Hthis1 & Hshape1).
  destruct Hshape1 as [(t & -> & Ht & Hclk & Hins & _)|(l' & _ & -> & Hclk & _ & _)].
  - intros Hrun. injection Hrun as <- <-. exists a, b, t0, lows, t. subst clk ins. auto.
  - destruct s1 as [obj1 clk1 ins1 lg1]. cbn [clock this] in Hclk, Hthis1. subst obj1.
    destruct (poll_loop (S (List.length ins)) (__gpio_echo self) 1 _ _ _ _ _)
      as [r2 s2|e s2|s2|] eqn:H2; try discriminate.
    destruct (poll_loop_inv HIGH _ _ _ _ _ _ _ _ _ _ _ _ H2)
      as (highs & _ & _ & Hshape2).
    destruct Hshape2 as [(t & -> & _)|(l2 & _ & -> & Hclk2 & _ & _)];
      intros Hrun; injection Hrun as <- <-; exfalso.
    + rewrite Hmax in Hv. discriminate.
    + subst clk clk1.
      inversion Hfin as [|? ? Ha Hfin1]; subst. inversion Hfin1 as [|? ? Hb Hfin2]; subst.
      inversion Hfin2 as [|? ? _ Hfin3]; subst.
      apply Forall_app in Hfin3 as [Hfl Hfin4]. apply Forall_app in Hfin4 as [Hfh _].
      pose proof (last_Forall _ lows a Hfl Ha) as Hs.
      pose proof (last_Forall _ highs b Hfh Hb) as He.
      pose proof (fsub_finite_not_nan _ _ He Hs) as Hw.
      destruct (not_nan_sign_bit _ Hw) as [s Hsign].
      pose proof (fmul_finite_sign _ s false 6034119813234688 (-45) Hsign) as Hd.
      rewrite <- HALF_SONIC_SPEED_finite in Hd. apply sign_bit_not_nan in Hd.
      rewrite (clamp_range_not_nan self _ Hd) in Hv. discriminate.
Qed.

Lemma get_range_nan_means_no_echo_witness :
  get_range (mkState sonar_right [ms 0; ms 0; ms 0; ms 1; ms 5; ms 13; ms 14]
                     [LOW; LOW; LOW; HIGH] []) =
    Returns math_nan
      (mkState sonar_right [ms 14] [HIGH]
         (trigger_pulse sonar_right ++ [EvTime (ms 0); EvTime (ms 0); EvTime (ms 0)]
            ++ polls 14 LOW [ms 1; ms 5] ++ [EvInput 14 LOW; EvTime (ms 13)])) /\
  Forall (fun t => is_finite t = true) [ms 0; ms 0; ms 0; ms 1; ms 5; ms 13; ms 14] /\
  is_nan (__max_range sonar_right) = false /\
  is_nan math_nan = true /\
  exists (a b t0 : float) (lows : list float) (t : float),
    in_budget sonar_right t0 lows /\
    timed_out sonar_right t0 t = true /\
    [ms 0; ms 0; ms 0; ms 1; ms 5; ms 13; ms 14] = a :: b :: t0 :: lows ++ t :: [ms 14] /\
    [LOW; LOW; LOW; HIGH] = repeat LOW (S (List.length lows)) ++ [HIGH].
Proof.
  assert (H1 : get_range (mkState sonar_right [ms 0; ms 0; ms 0; ms 1; ms 5; ms 13; ms 14]
                                  [LOW; LOW; LOW; HIGH] []) =
               Returns math_nan
                 (mkState sonar_right [ms 14] [HIGH]
                    (trigger_pulse sonar_right
                       ++ [EvTime (ms 0); EvTime (ms 0); EvTime (ms 0)]
                       ++ polls 14 LOW [ms 1; ms 5] ++ [EvInput 14 LOW; EvTime (ms 13)])))
    by (vm_compute; reflexivity).
  assert (H2 : Forall (fun t => is_finite t = true)
                      [ms 0; ms 0; ms 0; ms 1; ms 5; ms 13; ms 14])
    by (repeat constructor).
  split; [exact H1|]. split; [exact H2|]. split; [reflexivity|]. split; [reflexivity|].
  exact (get_range_nan_means_no_echo sonar_right _ _ [] math_nan _ H1 H2 eq_refl eq_refl).
Defined.

(** ** The wait budget of a constructed sensor *)






Lemma sign_true_nonpos (x : float) : sign_bit x = Some true -> fle x (of_int 0) = true.
Proof. destruct x as [s|s| |s m e]; intros H; try discriminate; injection H as ->; reflexivity. Qed.

Lemma fle_flt_trans (a b c : float) :
  fle a b = true -> flt b c = true -> flt a c = true.
Proof.
  unfold fle, flt, SFleb, SFltb.
  destruct a as [sa|sa| |sa ma ea], b as [sb|sb| |sb mb eb], c as [sc|sc| |sc mc ec];
    try (destruct sa); try (destruct sb); try (destruct sc);
    try (simpl; intros; solve [discriminate | reflexivity | assumption]).
  - rewrite !SFcompare_finite.
    destruct (lex_compare eb mb ea ma) eqn:H1; simpl; intros Hab; try discriminate;
      destruct (lex_compare ec mc eb mb) eqn:H2; simpl; intros Hbc; try discriminate;
      [apply lex_compare_Eq in H1|apply lex_compare_Lt in H1]; apply lex_compare_Lt in H2;
      assert (H3 : lex_compare ec mc ea ma = Lt) by (apply lex_compare_Lt; lia);
      rewrite H3; reflexivity.
  - rewrite !SFcompare_finite.
    destruct (lex_compare ea ma eb mb) eqn:H1; simpl; intros Hab; try discriminate;
      destruct (lex_compare eb mb ec mc) eqn:H2; simpl; intros Hbc; try discriminate;
      [apply lex_compare_Eq in H1|apply lex_compare_Lt in H1]; apply lex_compare_Lt in H2;
      assert (H3 : lex_compare ea ma ec mc = Lt) by (apply lex_compare_Lt; lia);
      rewrite H3; reflexivity.
Qed.



(** ** Which lines a measurement touches *)

Lemma poll_loop_log (pin want : Z) (mwt tv t0 : float) (fuel : nat) :
  forall (t : float) (s : State),
    match poll_loop fuel pin want mwt tv t0 t s with
    | Returns _ s' | Blocked s' =>
        exists d, log s' = log s ++ d /\ forallb (is_read_of pin) d = true
    | Raises _ _ => False
    | Diverges => True
    end.
Proof.
  induction fuel as [|fuel IH]; intros t [obj clk ins lg]; [exact I|].
  cbn [poll_loop]. unfold bind, GPIO_input. cbn [echo this clock log].
  destruct ins as [|l ins]; [exists []; rewrite app_nil_r; auto|].
  destruct (level_int l =? want).
  - unfold time_time. cbn [echo this clock log].
    destruct clk as [|t1 clk].
    + exists [EvInput pin l]. cbn. rewrite Z.eqb_refl. auto.
    + destruct (fgt (fsub t1 t0) mwt).
      * exists [EvInput pin l; EvTime t1]. cbn. rewrite Z.eqb_refl, <- app_assoc. auto.
      * specialize (IH t1 (mkState obj clk ins ((lg ++ [EvInput pin l]) ++ [EvTime t1]))).
        destruct (poll_loop fuel pin want mwt tv t0 t1 _) as [r s'|e s'|s'|];
          try exact IH; destruct IH as (d & Hd & Hr);
          exists ([EvInput pin l; EvTime t1] ++ d);
          (split; [rewrite Hd; cbn [log]; rewrite <- !app_assoc; reflexivity
                  |cbn; rewrite Z.eqb_refl; exact Hr]).
  - exists [EvInput pin l]. cbn. rewrite Z.eqb_refl. auto.
Qed.

(** After the trigger pulse, [get_range] only reads the clock and its own
    echo pin. *)
Lemma get_range_log (s s' : State) :
  final_state (get_range s) = Some s' ->
  exists d, log s' = log s ++ trigger_pulse (this s) ++ d /\
            forallb (is_read_of (__gpio_echo (this s))) d = true.
Proof.
  destruct s as [self clk ins lg].
  destruct clk as [|a [|b [|t0 clk]]].
  - cbv [get_range bind get_self GPIO_output time_sleep emit time_time this clock echo log
         final_state]. intros E. injection E as <-.
    exists []. cbn [log]. rewrite <- !app_assoc. split; reflexivity.
  - cbv [get_range bind get_self GPIO_output time_sleep emit time_time this clock echo log
         final_state]. intros E. injection E as <-.
    exists [EvTime a]. cbn [log]. rewrite <- !app_assoc. split; reflexivity.
  - cbv [get_range bind get_self GPIO_output time_sleep emit time_time this clock echo log
         final_state]. intros E. injection E as <-.
    exists [EvTime a; EvTime b]. cbn [log]. rewrite <- !app_assoc. split; reflexivity.
  - rewrite get_range_unfold. cbn [this log].
    assert (Hlog : forall d1 s1, log s1 = log (after_trigger self a b t0 clk ins lg) ++ d1 ->
              forallb (is_read_of (__gpio_echo self)) d1 = true ->
              exists d, log s1 = lg ++ trigger_pulse self ++ d /\
                        forallb (is_read_of (__gpio_echo self)) d = true).
    { intros d1 s1 Hd Hr. exists ([EvTime a; EvTime b; EvTime t0] ++ d1).
      rewrite Hd. unfold after_trigger. cbn [log]. rewrite <- !app_assoc.
      split; [reflexivity|]. rewrite forallb_app, Hr. reflexivity. }
    pose proof (poll_loop_log (__gpio_echo self) 0 (__max_wait_time self) math_nan t0
                  (S (List.length ins)) a (after_trigger self a b t0 clk ins lg)) as H1.
    destruct (poll_loop (S (List.length ins)) (__gpio_echo self) 0 _ _ _ _ _)
      as [[v|start_time] s1|e s1|s1|]; cbn [final_state];
      try discriminate; try contradiction.
    + intros E. injection E as <-. destruct H1 as (d1 & Hd1 & Hr1). eauto.
    + destruct H1 as (d1 & Hd1 & Hr1).
      pose proof (poll_loop_log (__gpio_echo self) 1 (__max_wait_time self)
                    (__max_range self) t0 (S (List.length ins)) b s1) as H2.
      destruct (poll_loop (S (List.length ins)) (__gpio_echo self) 1 _ _ _ _ _)
        as [[v|stop_time] s2|e s2|s2|]; cbn [final_state];
        try discriminate; try contradiction;
        intros E; injection E as <-; destruct H2 as (d2 & Hd2 & Hr2);
        apply (Hlog (d1 ++ d2));
        try (rewrite Hd2, Hd1, <- app_assoc; reflexivity);
        rewrite forallb_app, Hr1, Hr2; reflexivity.
    + intros E. injection E as <-. destruct H1 as (d1 & Hd1 & Hr1). eauto.
Qed.

Lemma line_level_app (pin : Z) (l1 l2 : list Event) :
  line_level pin (l1 ++ l2) =
  fold_left (fun acc e =>
               match e with
               | EvOutput p l => if p =? pin then Some l else acc
               | _ => acc
               end) l2 (line_level pin l1).
Proof. unfold line_level. apply fold_left_app. Qed.

Lemma line_level_reads (pin echo_pin : Z) (d : list Event) :
  forallb (is_read_of echo_pin) d = true ->
  forall acc,
    fold_left (fun acc e =>
                 match e with
                 | EvOutput p l => if p =? pin then Some l else acc
                 | _ => acc
                 end) d acc = acc.
Proof.
  induction d as [|e d IH]; intros Hd acc; [reflexivity|].
  cbn in Hd. apply andb_true_iff in Hd as [He Hd]. cbn [fold_left].
  destruct e; try discriminate; apply IH, Hd.
Qed.

(** X4. However a measurement ends (value returned, or still waiting for
    the environment), the last level written to the trigger line is low,
    and no other line has been written. *)
Theorem get_range_leaves_trigger_low (s s' : State) :
  final_state (get_range s) = Some s' ->
  line_level (__gpio_trigger (this s)) (log s') = Some LOW /\
  forall p : Z, p <> __gpio_trigger (this s) ->
                line_level p (log s') = line_level p (log s).
Proof.
  intros Hrun. destruct (get_range_log _ _ Hrun) as (d & -> & Hd).
  split.
  - rewrite app_assoc, line_level_app, (line_level_reads _ _ _ Hd).
    rewrite line_level_app. cbn. rewrite Z.eqb_refl. reflexivity.
  - intros p Hp. rewrite app_assoc, line_level_app, (line_level_reads _ _ _ Hd).
    rewrite line_level_app. cbn. apply Z.eqb_neq in Hp.
    rewrite (Z.eqb_sym (__gpio_trigger (this s)) p), Hp. reflexivity.
Qed.

Lemma get_range_leaves_trigger_low_witness :
  final_state (get_range (mkState sonar_right pulse_clock pulse_echo [])) =
    Some pulse_final /\
  line_level (__gpio_trigger sonar_right) (log pulse_final) = Some LOW /\
  forall p : Z, p <> __gpio_trigger sonar_right ->
                line_level p (log pulse_final) = line_level p [].
Proof.
  assert (H1 : final_state (get_range (mkState sonar_right pulse_clock pulse_echo [])) =
               Some pulse_final) by (vm_compute; reflexivity).
  split; [exact H1|].
  exact (get_range_leaves_trigger_low (mkState sonar_right pulse_clock pulse_echo [])
           pulse_final H1).
Defined.

Lemma gpio_ok_reads (pin : Z) (mode : bool) (dir : Z -> option Direction) (d : list Event) :
  forallb (is_read_of pin) d = true ->
  dir pin <> None ->
  gpio_ok mode dir d = true.
Proof.
  induction d as [|e d IH]; intros Hd Hdir; [reflexivity|].
  cbn in Hd. apply andb_true_iff in Hd as [He Hd].
  destruct e; try discriminate; cbn [gpio_ok].
  - cbn in He. apply Z.eqb_eq in He. subst pin0.
    destruct (dir pin); [apply IH; assumption|contradiction].
  - apply IH; assumption.
Qed.

(** X5. Starting from an empty log, [init_hw] followed by [get_range] uses
    the GPIO library within its rules exactly when the trigger and echo
    pins differ: the mode is set first, the trigger pin is an output when
    written and the echo pin is set up when read. With one pin for both,
    [init_hw] leaves it an input and the trigger pulse writes to an input. *)
Theorem init_hw_then_get_range_pins (s s' : State) :
  log s = [] ->
  final_state ((init_hw ;; get_range) s) = Some s' ->
  gpio_ok false (fun _ => None) (log s') =
  negb (__gpio_trigger (this s) =? __gpio_echo (this s)).
Proof.
  destruct s as [self clk ins lg]. cbn [log this]. intros -> Hrun.
  unfold bind in Hrun.
  cbv [init_hw bind get_self GPIO_setmode_BCM GPIO_setup GPIO_output emit
       this clock echo log] in Hrun.
  destruct (get_range_log _ _ Hrun) as (d & -> & Hd). cbn [this log app] in *.
  cbn [gpio_ok trigger_pulse app andb]. rewrite !Z.eqb_refl.
  destruct (__gpio_trigger self =? __gpio_echo self) eqn:E; [reflexivity|].
  cbn [negb]. apply (gpio_ok_reads (__gpio_echo self)); [exact Hd|].
  rewrite Z.eqb_refl. discriminate.
Qed.

Lemma init_hw_then_get_range_pins_witness :
  log (mkState sonar_right pulse_clock pulse_echo []) = [] /\
  final_state ((init_hw ;; get_range) (mkState sonar_right pulse_clock pulse_echo [])) =
    Some (mkState sonar_right [] []
            ([EvSetmodeBCM; EvSetup 15 OUT; EvOutput 15 LOW; EvSetup 14 IN]
               ++ log pulse_final)) /\
  gpio_ok false (fun _ => None)
          ([EvSetmodeBCM; EvSetup 15 OUT; EvOutput 15 LOW; EvSetup 14 IN]
             ++ log pulse_final) = negb (15 =? 14).
Proof.
  assert (H1 : final_state ((init_hw ;; get_range)
                              (mkState sonar_right pulse_clock pulse_echo [])) =
               Some (mkState sonar_right [] []
                       ([EvSetmodeBCM; EvSetup 15 OUT; EvOutput 15 LOW; EvSetup 14 IN]
                          ++ log pulse_final))) by (vm_compute; reflexivity).
  split; [reflexivity|]. split; [exact H1|].
  exact (init_hw_then_get_range_pins (mkState sonar_right pulse_clock pulse_echo []) _
           eq_refl H1).
Defined.

(** ** Polling has no count limit *)

Lemma poll_loop_starved (pin : Z) (mwt tv t0 : float) (l : Level) (samples : list float) :
  Forall (fun x => fgt (fsub x t0) mwt = false) samples ->
  forall (fuel : nat) (t : float) obj lg,
    (List.length samples < fuel)%nat ->
    poll_loop fuel pin (level_int l) mwt tv t0 t
      (mkState obj samples (repeat l (List.length samples)) lg) =
    Blocked (mkState obj [] [] (lg ++ polls pin l samples)).
Proof.
  intros Hs fuel t obj lg Hf.
  pose proof (poll_loop_polls pin (level_int l) mwt tv t0 l samples eq_refl Hs
                (fuel - List.length samples) t obj [] [] lg) as H.
  rewrite !app_nil_r in H.
  replace (List.length samples + (fuel - List.length samples))%nat with fuel in H by lia.
  rewrite H. destruct (fuel - List.length samples)%nat eqn:E; [lia|]. reflexivity.
Qed.

(** X6. The loops stop on a changed reading or on a sample beyond the
    budget, never on a count: after any number of polls with the line low
    and the clock in budget the call is still waiting for the next reading,
    and likewise after any number of polls with the line high. *)
Theorem get_range_keeps_polling (self : UltraSonicSonar) (a b t0 : float)
    (lows highs : list float) lg :
  in_budget self t0 lows ->
  in_budget self t0 highs ->
  get_range (mkState self (a :: b :: t0 :: lows) (repeat LOW (List.length lows)) lg) =
    Blocked (mkState self [] []
               (lg ++ trigger_pulse self ++ [EvTime a; EvTime b; EvTime t0]
                   ++ polls (__gpio_echo self) LOW lows))
  /\
  get_range (mkState self (a :: b :: t0 :: lows ++ highs)
                     (repeat LOW (List.length lows) ++
                      HIGH :: repeat HIGH (List.length highs)) lg) =
    Blocked (mkState self [] []
               (lg ++ trigger_pulse self ++ [EvTime a; EvTime b; EvTime t0]
                   ++ polls (__gpio_echo self) LOW lows
                   ++ [EvInput (__gpio_echo self) HIGH]
                   ++ polls (__gpio_echo self) HIGH highs)).
Proof.
  intros Hlows Hhighs. split.
  - rewrite get_range_unfold. unfold after_trigger.
    rewrite (poll_loop_starved _ _ _ _ LOW lows Hlows) by (rewrite repeat_length; lia).
    rewrite <- !app_assoc. reflexivity.
  - rewrite get_range_unfold. unfold after_trigger.
    rewrite (poll_loop_until_exit _ 0 _ _ _ LOW HIGH lows) by
      (reflexivity || discriminate || assumption ||
       (rewrite length_app, repeat_length; lia)).
    rewrite (poll_loop_starved _ _ _ _ HIGH highs Hhighs) by
      (rewrite length_app, repeat_length; cbn [List.length]; rewrite repeat_length; lia).
    rewrite <- !app_assoc. reflexivity.
Qed.

Lemma get_range_keeps_polling_witness :
  in_budget sonar_right (ms 0) [ms 1; ms 2] /\
  in_budget sonar_right (ms 0) [ms 3; ms 4] /\
  get_range (mkState sonar_right (ms 0 :: ms 0 :: ms 0 :: [ms 1; ms 2])
                     (repeat LOW 2) []) =
    Blocked (mkState sonar_right [] []
               ([] ++ trigger_pulse sonar_right
                   ++ [EvTime (ms 0); EvTime (ms 0); EvTime (ms 0)]
                   ++ polls 14 LOW [ms 1; ms 2]))
  /\
  get_range (mkState sonar_right (ms 0 :: ms 0 :: ms 0 :: [ms 1; ms 2] ++ [ms 3; ms 4])
                     (repeat LOW 2 ++ HIGH :: repeat HIGH 2) []) =
    Blocked (mkState sonar_right [] []
               ([] ++ trigger_pulse sonar_right
                   ++ [EvTime (ms 0); EvTime (ms 0); EvTime (ms 0)]
                   ++ polls 14 LOW [ms 1; ms 2] ++ [EvInput 14 HIGH]
                   ++ polls 14 HIGH [ms 3; ms 4])).
Proof.
  assert (H1 : in_budget sonar_right (ms 0) [ms 1; ms 2])
    by (repeat constructor; vm_compute; reflexivity).
  assert (H2 : in_budget sonar_right (ms 0) [ms 3; ms 4])
    by (repeat constructor; vm_compute; reflexivity).
  split; [exact H1|]. split; [exact H2|].
  exact (get_range_keeps_polling sonar_right (ms 0) (ms 0) (ms 0) [ms 1; ms 2] [ms 3; ms 4]
           [] H1 H2).
Defined.

(** ** Subtraction of ordered floats *)

Lemma digits2_pos_size (m : positive) : digits2_pos m = Pos.size m.
Proof. induction m as [m IH|m IH|]; cbn; try rewrite IH; reflexivity. Qed.

Lemma digits2_pos_bounds (m : positive) :
  2 ^ (Zpos (digits2_pos m) - 1) <= Zpos m < 2 ^ Zpos (digits2_pos m).
Proof.
  rewrite digits2_pos_size.
  pose proof (Pos.size_gt m) as Hgt. pose proof (Pos.size_le m) as Hle.
  apply Pos2Z.pos_lt_pos in Hgt. apply Pos2Z.pos_le_pos in Hle.
  rewrite Pos2Z.inj_pow in Hgt, Hle. change (Zpos 2) with 2 in Hgt, Hle.
  rewrite (Pos2Z.inj_xO m) in Hle.
  assert (H2 : 2 ^ Zpos (Pos.size m) = 2 * 2 ^ (Zpos (Pos.size m) - 1)).
  { rewrite <- Z.pow_succ_r by lia. f_equal. lia. }
  lia.
Qed.

(** A finite float in canonical form: its mantissa has at most 53 bits, and
    exactly 53 unless the exponent is the least one. *)
Lemma bounded_mantissa (m : positive) (e : Z) :
  bounded prec emax m e = true ->
  Zpos m < 2 ^ 53 /\ -1074 <= e /\ (-1074 < e -> 2 ^ 52 <= Zpos m).
Proof.
  unfold bounded, canonical_mantissa, fexp, emin, prec, emax.
  intros H. apply andb_true_iff in H as [H _]. apply Z.eqb_eq in H.
  pose proof (digits2_pos_bounds m) as [Hlo Hhi].
  assert (Hd : Zpos (digits2_pos m) <= 53) by lia.
  split; [|split].
  - apply (Z.lt_le_trans _ _ _ Hhi). apply Z.pow_le_mono_r; lia.
  - lia.
  - intros He. assert (Hd' : Zpos (digits2_pos m) = 53) by lia.
    rewrite Hd' in Hlo. exact Hlo.
Qed.

Lemma iter_xO_pow (d m : positive) : Zpos (Pos.iter xO m d) = Zpos m * 2 ^ Zpos d.
Proof.
  induction d as [|d IH] using Pos.peano_ind.
  - cbn. lia.
  - rewrite Pos.iter_succ, Pos2Z.inj_xO, IH, Pos2Z.inj_succ, Z.pow_succ_r by lia. lia.
Qed.

Lemma shl_align_value (m : positive) (e e' : Z) :
  e' <= e -> Zpos (fst (shl_align m e e')) = Zpos m * 2 ^ (e - e').
Proof.
  intros Hle. unfold shl_align. destruct (e' - e) as [|d|d] eqn:E.
  - replace (e - e') with 0 by lia. cbn [fst]. lia.
  - lia.
  - replace (e - e') with (Zpos d) by lia. cbn [fst]. apply iter_xO_pow.
Qed.

(** For canonical positive floats, the order by exponent and mantissa is
    the order of the mantissas aligned to the smaller exponent. *)
Lemma aligned_le (ma : positive) (ea : Z) (mb : positive) (eb : Z) :
  bounded prec emax ma ea = true -> bounded prec emax mb eb = true ->
  lex_compare ea ma eb mb <> Gt ->
  Zpos (fst (shl_align ma ea (Z.min ea eb))) <= Zpos (fst (shl_align mb eb (Z.min ea eb))).
Proof.
  intros Ha Hb Hc.
  destruct (bounded_mantissa _ _ Ha) as (Ha1 & Ha2 & _).
  destruct (bounded_mantissa _ _ Hb) as (_ & _ & Hb3).
  rewrite !shl_align_value by lia.
  assert (Hcases : ea < eb \/ (ea = eb /\ (ma <= mb)%positive)).
  { destruct (lex_compare ea ma eb mb) eqn:E; [| |contradiction].
    - apply lex_compare_Eq in E as [-> ->]. right. split; [reflexivity|apply Pos.le_refl].
    - apply lex_compare_Lt in E as [E|[E1 E2]]; [left; exact E|right].
      split; [exact E1|apply Pos.lt_le_incl, E2]. }
  destruct Hcases as [Hlt|[-> Hle]].
  - rewrite Z.min_l by lia. replace (ea - ea) with 0 by lia.
    assert (Hp : 2 ^ 1 <= 2 ^ (eb - ea)) by (apply Z.pow_le_mono_r; lia).
    specialize (Hb3 ltac:(lia)).
    change (2 ^ 0) with 1. change (2 ^ 1) with 2 in Hp.
    change (2 ^ 53) with (2 * 2 ^ 52) in Ha1. nia.
  - rewrite Z.min_id. replace (eb - eb) with 0 by lia. change (2 ^ 0) with 1.
    apply Pos2Z.pos_le_pos in Hle. lia.
Qed.

Lemma binary_normalize_nonpos (m e : Z) :
  m <= 0 -> fle (binary_normalize prec emax m e false) (of_int 0) = true.
Proof.
  intros Hm. destruct (Z.eq_dec m 0) as [->|Hm0]; [reflexivity|].
  apply sign_true_nonpos. rewrite binary_normalize_sign. f_equal. apply Z.ltb_lt. lia.
Qed.

(** Subtracting a float from one not above it never gives a positive
    number. *)
Lemma fsub_nonpos (a b : float) :
  is_finite a = true -> is_finite b = true ->
  valid_binary prec emax a = true -> valid_binary prec emax b = true ->
  fle a b = true ->
  fle (fsub a b) (of_int 0) = true.
Proof.
  destruct a as [sa|sa| |sa ma ea], b as [sb|sb| |sb mb eb]; try discriminate;
    intros _ _ Va Vb Hle.
  - destruct sa, sb; reflexivity.
  - destruct sb; [discriminate|reflexivity].
  - destruct sa; [reflexivity|discriminate].
  - cbn [valid_binary] in Va, Vb. unfold fle, SFleb in Hle.
    rewrite SFcompare_finite in Hle.
    unfold fsub, SFsub. apply binary_normalize_nonpos.
    destruct sa, sb; cbn [cond_Zopp].
    + assert (Hc : lex_compare eb mb ea ma <> Gt)
        by (destruct (lex_compare eb mb ea ma); discriminate).
      pose proof (aligned_le _ _ _ _ Vb Va Hc) as H.
      rewrite (Z.min_comm eb ea) in H. lia.
    + lia.
    + discriminate.
    + assert (Hc : lex_compare ea ma eb mb <> Gt)
        by (destruct (lex_compare ea ma eb mb); discriminate).
      pose proof (aligned_le _ _ _ _ Va Vb Hc) as H. lia.
Qed.

(** A number that is not positive stays so when multiplied by 171.5. *)
Lemma fmul_half_speed_nonpos (x : float) :
  fle x (of_int 0) = true -> fle (fmul x HALF_SONIC_SPEED) (of_int 0) = true.
Proof.
  intros Hx. rewrite HALF_SONIC_SPEED_finite.
  destruct x as [s|s| |s m e]; try discriminate.
  - destruct s; reflexivity.
  - destruct s; [reflexivity|discriminate].
  - destruct s; [|discriminate]. apply sign_true_nonpos.
    apply (fmul_finite_sign _ true false). reflexivity.
Qed.

(** ** Edge cases of the clamped path *)

Lemma get_range_pulse_run (self : UltraSonicSonar) (a b t0 : float)
    (lows highs : list float) clk ins lg :
  in_budget self t0 lows ->
  in_budget self t0 highs ->
  get_range (mkState self (a :: b :: t0 :: lows ++ highs ++ clk)
                     (repeat LOW (List.length lows) ++
                      HIGH :: repeat HIGH (List.length highs) ++ LOW :: ins) lg) =
  Returns (clamp_range self (fmul (fsub (last highs b) (last lows a)) HALF_SONIC_SPEED))
    (mkState self clk ins
       (lg ++ trigger_pulse self ++ [EvTime a; EvTime b; EvTime t0]
           ++ polls (__gpio_echo self) LOW lows
           ++ [EvInput (__gpio_echo self) HIGH]
           ++ polls (__gpio_echo self) HIGH highs
           ++ [EvInput (__gpio_echo self) LOW])).
Proof.
  intros Hlows Hhighs. rewrite get_range_unfold. unfold after_trigger.
  rewrite (poll_loop_until_exit _ 0 _ _ _ LOW HIGH lows) by
    (reflexivity || discriminate || assumption ||
     (rewrite length_app, repeat_length; lia)).
  rewrite (poll_loop_until_exit _ 1 _ _ _ HIGH LOW highs) by
    (reflexivity || discriminate || assumption ||
     (rewrite length_app, repeat_length; cbn [List.length];
      rewrite length_app, repeat_length; lia)).
  rewrite <- !app_assoc. reflexivity.
Qed.

(** X7. A pulse shorter than one poll. When the line is read high once and
    low on the very next read, [stop_time] still holds the sample taken
    before the loops, which is not later than [start_time]; the elapsed time
    is then not positive, and with a positive [min_range] the call returns
    exactly [min_range]. *)
Theorem get_range_short_pulse (self : UltraSonicSonar) (a b t0 : float)
    (lows : list float) clk ins lg :
  in_budget self t0 lows ->
  is_finite b = true -> is_finite (last lows a) = true ->
  valid_binary prec emax b = true -> valid_binary prec emax (last lows a) = true ->
  fle b (last lows a) = true ->
  flt (of_int 0) (__min_range self) = true ->
  get_range (mkState self (a :: b :: t0 :: lows ++ clk)
                     (repeat LOW (List.length lows) ++ HIGH :: LOW :: ins) lg) =
  Returns (__min_range self)
    (mkState self clk ins
       (lg ++ trigger_pulse self ++ [EvTime a; EvTime b; EvTime t0]
           ++ polls (__gpio_echo self) LOW lows
           ++ [EvInput (__gpio_echo self) HIGH; EvInput (__gpio_echo self) LOW])).
Proof.
  intros Hlows Fb Fs Vb Vs Hle Hmin.
  pose proof (get_range_pulse_run self a b t0 lows [] clk ins lg Hlows (Forall_nil _)) as H.
  cbn [List.length repeat app polls flat_map last] in H. rewrite H. f_equal.
  apply clamp_range_below.
  apply (fle_flt_trans _ (of_int 0)); [|exact Hmin].
  apply fmul_half_speed_nonpos, fsub_nonpos; assumption.
Qed.

Lemma get_range_short_pulse_witness :
  in_budget sonar_right (ms 0) [ms 1; ms 2] /\
  is_finite (ms 0) = true /\ is_finite (last [ms 1; ms 2] (ms 0)) = true /\
  valid_binary prec emax (ms 0) = true /\
  valid_binary prec emax (last [ms 1; ms 2] (ms 0)) = true /\
  fle (ms 0) (last [ms 1; ms 2] (ms 0)) = true /\
  flt (of_int 0) (__min_range sonar_right) = true /\
  get_range (mkState sonar_right (ms 0 :: ms 0 :: ms 0 :: [ms 1; ms 2] ++ [])
                     (repeat LOW 2 ++ HIGH :: LOW :: []) []) =
  Returns (__min_range sonar_right)
    (mkState sonar_right [] []
       ([] ++ trigger_pulse sonar_right ++ [EvTime (ms 0); EvTime (ms 0); EvTime (ms 0)]
           ++ polls 14 LOW [ms 1; ms 2] ++ [EvInput 14 HIGH; EvInput 14 LOW])).
Proof.
  assert (H1 : in_budget sonar_right (ms 0) [ms 1; ms 2])
    by (repeat constructor; vm_compute; reflexivity).
  assert (H2 : flt (of_int 0) (__min_range sonar_right) = true) by (vm_compute; reflexivity).
  assert (H3 : fle (ms 0) (last [ms 1; ms 2] (ms 0)) = true) by (vm_compute; reflexivity).
  assert (H4 : valid_binary prec emax (last [ms 1; ms 2] (ms 0)) = true)
    by (vm_compute; reflexivity).
  repeat (split; [first [assumption | reflexivity]|]).
  exact (get_range_short_pulse sonar_right (ms 0) (ms 0) (ms 0) [ms 1; ms 2] [] [] []
           H1 eq_refl eq_refl eq_refl H4 H3 H2).
Defined.

Lemma clamp_range_inverted (self : UltraSonicSonar) (d : float) :
  flt (__max_range self) (__min_range self) = true ->
  is_nan d = false ->
  clamp_range self d = __min_range self.
Proof.
  intros Hinv Hd. unfold clamp_range.
  destruct (fgt d (__max_range self)) eqn:Hgt.
  - rewrite Hinv. reflexivity.
  - destruct (flt_not_nan _ _ Hinv) as [Hmax _].
    pose proof (not_fgt_fle _ _ Hd Hmax Hgt) as Hle.
    rewrite (fle_flt_trans _ _ _ Hle Hinv). reflexivity.
Qed.

(** X8. Inverted bounds, which the constructor accepts. When [max_range]
    is below [min_range], every completed pulse returns [min_range],
    whatever its width. *)
Theorem get_range_inverted_bounds (self : UltraSonicSonar) (a b t0 : float)
    (lows highs : list float) clk ins lg :
  in_budget self t0 lows ->
  in_budget self t0 highs ->
  is_finite (last lows a) = true -> is_finite (last highs b) = true ->
  flt (__max_range self) (__min_range self) = true ->
  get_range (mkState self (a :: b :: t0 :: lows ++ highs ++ clk)
                     (repeat LOW (List.length lows) ++
                      HIGH :: repeat HIGH (List.length highs) ++ LOW :: ins) lg) =
  Returns (__min_range self)
    (mkState self clk ins
       (lg ++ trigger_pulse self ++ [EvTime a; EvTime b; EvTime t0]
           ++ polls (__gpio_echo self) LOW lows
           ++ [EvInput (__gpio_echo self) HIGH]
           ++ polls (__gpio_echo self) HIGH highs
           ++ [EvInput (__gpio_echo self) LOW])).
Proof.
  intros Hlows Hhighs Fs Fe Hinv.
  rewrite (get_range_pulse_run self a b t0 lows highs clk ins lg Hlows Hhighs). f_equal.
  apply clamp_range_inverted; [exact Hinv|].
  pose proof (fsub_finite_not_nan _ _ Fe Fs) as Hw.
  destruct (not_nan_sign_bit _ Hw) as [s Hsign].
  pose proof (fmul_finite_sign _ s false 6034119813234688 (-45) Hsign) as Hd.
  rewrite <- HALF_SONIC_SPEED_finite in Hd. exact (sign_bit_not_nan _ _ Hd).
Qed.

Lemma sonar_inverted_init :
  __init__ "right" 15 14 (of_int 4) (fdiv (of_int 5) (of_int 100)) None = inr sonar_inverted.
Proof. vm_compute. reflexivity. Qed.

Lemma get_range_inverted_bounds_witness :
  in_budget sonar_inverted (ms 0) [us 100; us 200] /\
  in_budget sonar_inverted (ms 0) [us 300; us 900] /\
  is_finite (last [us 100; us 200] (ms 0)) = true /\
  is_finite (last [us 300; us 900] (ms 0)) = true /\
  flt (__max_range sonar_inverted) (__min_range sonar_inverted) = true /\
  get_range (mkState sonar_inverted
                     (ms 0 :: ms 0 :: ms 0 :: [us 100; us 200] ++ [us 300; us 900] ++ [])
                     (repeat LOW 2 ++ HIGH :: repeat HIGH 2 ++ LOW :: []) []) =
  Returns (of_int 4)
    (mkState sonar_inverted [] []
       ([] ++ trigger_pulse sonar_inverted
           ++ [EvTime (ms 0); EvTime (ms 0); EvTime (ms 0)]
           ++ polls 14 LOW [us 100; us 200] ++ [EvInput 14 HIGH]
           ++ polls 14 HIGH [us 300; us 900] ++ [EvInput 14 LOW])).
Proof.
  assert (H1 : in_budget sonar_inverted (ms 0) [us 100; us 200])
    by (repeat constructor; vm_compute; reflexivity).
  assert (H2 : in_budget sonar_inverted (ms 0) [us 300; us 900])
    by (repeat constructor; vm_compute; reflexivity).
  assert (H3 : flt (__max_range sonar_inverted) (__min_range sonar_inverted) = true)
    by (vm_compute; reflexivity).
  repeat (split; [first [assumption | reflexivity]|]).
  exact (get_range_inverted_bounds sonar_inverted (ms 0) (ms 0) (ms 0)
           [us 100; us 200] [us 300; us 900] [] [] [] H1 H2 eq_refl eq_refl H3).
Defined.
